(** * Visitor counter: client retry logic, counter animation, counter service

    A shallow embedding of [frontend/script.js] (the visitor-counter client)
    and of the counter service it calls, with the properties the
    specification states about them.

    Conventions of the embedding.
    - JavaScript numbers are idealised as exact rationals ([Q]); rounding of
      IEEE doubles, [NaN] and the infinities are outside the model.
    - Wall-clock time of the client is counted in whole milliseconds ([N]);
      timers fire exactly when they are due and the steps of the script
      itself take no time.
    - The page has the element with the id visitor-count.
    - The browser and the network are an explicit environment: the n-th call
      of [fetch] receives the n-th [FetchPromise] of the environment, and the
      animation receives the list of frame timestamps the browser delivers.
    - A promise of the network may stay pending for ever.  A run that awaits
      such a promise outside a race stops there: the world it returns is the
      page as it then stays. *)

From Stdlib Require Import QArith Qround Qminmax Qabs Lqa Sorted.
From stdpp Require Import gmap strings list functions pretty.
From Equations Require Import Equations.

Set Warnings "-register-all".

(** ** JavaScript values, as [response.json()] produces them *)

Module Js.

Inductive JsValue : Type :=
| JsUndefined
| JsNull
| JsBool (b : bool)
| JsNumber (q : Q)
| JsString (s : string)
| JsArray (items : list JsValue)
| JsObject (props : gmap string JsValue).

(** Errors that can be thrown inside [fetchVisitorCount]. *)
Inductive JsError : Type :=
| RequestTimeout              (* new Error('Request timeout') *)
| HttpError (status : Z)      (* new Error(`HTTP error! status: ${response.status}`) *)
| InvalidCountFormat          (* new Error('Invalid count format in response') *)
| NetworkFailure              (* TypeError: fetch, or the reading of the body, failed *)
| BodySyntaxError             (* SyntaxError: response.json() rejected *)
| NullPropertyAccess.         (* TypeError: reading a property of null/undefined *)

(** Completion of an expression or statement of an async function: a value,
    a thrown error, or no completion at all: the evaluation is suspended at
    an [await] whose promise never settles, so that nothing after it runs and
    no [catch] block is entered. *)
Inductive Completion (A : Type) : Type :=
| Normal (a : A)
| Throw (e : JsError)
| Pending.
Arguments Normal {A} a.
Arguments Throw {A} e.
Arguments Pending {A}.

Definition bindC {A B} (c : Completion A) (k : A -> Completion B) : Completion B :=
  match c with
  | Normal a => k a
  | Throw e => Throw e
  | Pending => Pending
  end.

(** ToBoolean. The falsy values are undefined, null, false, 0 and ''. *)
Definition truthy (v : JsValue) : bool :=
  match v with
  | JsUndefined | JsNull => false
  | JsBool b => b
  | JsNumber q => negb (Qeq_bool q 0)
  | JsString s => negb (String.eqb s "")
  | JsArray _ | JsObject _ => true
  end.

(** [typeof v === 'number'] *)
Definition is_number (v : JsValue) : bool :=
  match v with
  | JsNumber _ => true
  | _ => false
  end.

(** [data.name], for the member names the client reads.  Reading a member
    of null or undefined throws; an object yields its own property or
    undefined; primitives and arrays have no member of these names. *)
Definition get (data : JsValue) (name : string) : Completion JsValue :=
  match data with
  | JsUndefined | JsNull => Throw NullPropertyAccess
  | JsObject props => Normal (default JsUndefined (props !! name))
  | _ => Normal JsUndefined
  end.

(** [a || b]: the left operand when it is truthy, else the right operand
    (which is evaluated only in that case). *)
Definition or_else (a : JsValue) (b : Completion JsValue) : Completion JsValue :=
  if truthy a then Normal a else b.

End Js.
Import Js.

#[global] Instance completion_ret : MRet Completion := @Normal.
#[global] Instance completion_bind : MBind Completion :=
  fun A B k c => bindC c k.

(** ** The client: [frontend/script.js] *)

Module Client.

(** script.js, line 53:
    [const count = data.count || data.visitor_count || data.visitorCount] *)
Definition extract_count (data : JsValue) : Completion JsValue :=
  c ← get data "count";
  or_else c (
    v ← get data "visitor_count";
    or_else v (get data "visitorCount")).

(** The member names consulted by [extract_count], in order. *)
Definition accepted_names : list string :=
  ["count"; "visitor_count"; "visitorCount"].

(** The own property [name] of a parsed body, undefined when the body has no
    such property (or is not an object at all). *)
Definition field (data : JsValue) (name : string) : JsValue :=
  match data with
  | JsObject props => default JsUndefined (props !! name)
  | _ => JsUndefined
  end.

(** The value that [||] selects among the three members: the first truthy
    one, or the last when none is truthy. *)
Definition first_truthy (data : JsValue) : JsValue :=
  let c := field data "count" in
  if truthy c then c else
  let v := field data "visitor_count" in
  if truthy v then v else field data "visitorCount".

(** *** Configuration (script.js, lines 9-14) *)

Record Config : Type := {
  apiEndpoint : string;
  retryAttempts : nat;
  retryDelay : N;      (* milliseconds *)
  timeout_ms : N       (* the field [timeout], in milliseconds *)
}.

Definition config : Config := {|
  apiEndpoint :=
    "https://c1op5k68ii.execute-api.eu-west-2.amazonaws.com/Prod/visitor-count";
  retryAttempts := 3;
  retryDelay := 1000;
  timeout_ms := 5000
|}.

(** *** The environment: network and page *)

(** What the server answered: the status line, which is there when the
    promise of [fetch] fulfils, and the body, which [response.json()] reads
    afterwards.  The promise of [response.json()] settles [body_latency] ms
    after the call, or, for a body that never ends, not at all. *)
Inductive Body : Type :=
| JsonBody (data : JsValue)    (* fulfils with the parsed body *)
| MalformedBody                (* rejects with a SyntaxError *)
| InterruptedBody              (* rejects with a TypeError: the connection broke *)
| StalledBody.                 (* stays pending *)

Record Response : Type := {
  status : Z;
  body : Body;
  body_latency : N
}.

(** [response.ok]: the status is in the range 200-299. *)
Definition ok (r : Response) : bool :=
  ((200 <=? status r) && (status r <=? 299))%Z.

(** The promise returned by one call of [fetch]: it is fulfilled with a
    response or rejected (network failure) [latency] ms after the call, or it
    stays pending for ever. *)
Inductive Settlement : Type :=
| Fulfilled (r : Response)
| Rejected.

Inductive FetchPromise : Type :=
| SettlesAfter (latency : N) (s : Settlement)
| NeverSettles.

(** The network: the promise the n-th call of [fetch] returns (n from 0). *)
Definition Network : Type := nat -> FetchPromise.

(** The element with id [visitor-count]: its text and its [style.color]. *)
Record Element : Type := {
  textContent : string;
  color : string
}.

(** The value of the parameter [attempt] once its default is applied, as far
    as arithmetic sees it: a number, or a value that converts to NaN.  The
    listener of line 114 is called with the DOMContentLoaded event object,
    which is of the second kind. *)
Inductive Attempt : Type :=
| AttemptNumber (n : nat)
| AttemptEvent.

(** An animation started by [animateValue]: the captured arguments and
    [startTime]. *)
Record Animation : Type := {
  anim_start : Q;
  anim_end : Q;
  anim_duration : Q;
  anim_startTime : Q
}.

Inductive TimerCallback : Type :=
| RejectRequestTimeout         (* () => reject(new Error('Request timeout')) *)
| ResolveDelay.                (* resolve *)

Inductive ConsoleMessage : Type :=
| LogFetching (attempt : Attempt) (total : nat)
| LogDataReceived (data : JsValue)
| LogUpdated (count : Q)
| LogRetrying (ms : N)
| ErrorFetching (attempt : Attempt) (error : JsError)
| ErrorAllFailed.

(** What the script does to the outside world, in the order it does it. *)
Inductive Event : Type :=
| Console (m : ConsoleMessage)
| FetchCall (url method : string) (p : FetchPromise)
| SetTimeout (cb : TimerCallback) (ms : N).

(** The state of the page while the script runs.  [trace] lists the events
    with the time of each, newest first. *)
Record World : Type := {
  clock : N;
  counterElement : Element;
  animations : list Animation;
  trace : list (N * Event)
}.

Definition emit (e : Event) (w : World) : World :=
  {| clock := clock w; counterElement := counterElement w;
     animations := animations w; trace := (clock w, e) :: trace w |}.

Definition advance (ms : N) (w : World) : World :=
  {| clock := (clock w + ms)%N; counterElement := counterElement w;
     animations := animations w; trace := trace w |}.

Definition set_element (el : Element) (w : World) : World :=
  {| clock := clock w; counterElement := el;
     animations := animations w; trace := trace w |}.

Definition start_animation (a : Animation) (w : World) : World :=
  {| clock := clock w; counterElement := counterElement w;
     animations := a :: animations w; trace := trace w |}.

(** The calls of [fetch] made so far, newest first: when, and the promise
    each returned. *)
Fixpoint fetch_calls_of (tr : list (N * Event)) : list (N * FetchPromise) :=
  match tr with
  | [] => []
  | (t, FetchCall _ _ p) :: tr' => (t, p) :: fetch_calls_of tr'
  | _ :: tr' => fetch_calls_of tr'
  end.

Definition fetch_calls (w : World) : list (N * FetchPromise) :=
  fetch_calls_of (trace w).

(** The timers set so far, newest first. *)
Fixpoint timers_of (tr : list (N * Event)) : list (N * TimerCallback * N) :=
  match tr with
  | [] => []
  | (t, SetTimeout cb ms) :: tr' => (t, cb, ms) :: timers_of tr'
  | _ :: tr' => timers_of tr'
  end.

(** *** Statements of an async function: state and exceptions *)

Definition M (A : Type) : Type := World -> World * Completion A.

#[global] Instance M_ret : MRet M := fun A a w => (w, Normal a).
#[global] Instance M_bind : MBind M := fun A B k c w =>
  match c w with
  | (w1, Normal a) => k a w1
  | (w1, Throw e) => (w1, Throw e)
  | (w1, Pending) => (w1, Pending)
  end.

Definition throw {A} (e : JsError) : M A := fun w => (w, Throw e).

Definition lift {A} (c : Completion A) : M A := fun w => (w, c).

Definition console_log (m : ConsoleMessage) : M unit :=
  fun w => (emit (Console m) w, Normal tt).

Definition console_error (m : ConsoleMessage) : M unit :=
  fun w => (emit (Console m) w, Normal tt).

(** *** [timeout(ms)] (script.js, lines 17-21) *)

(** The promise [timeout] returns: it never fulfils and rejects with
    'Request timeout' once [ms] milliseconds have passed. *)
Inductive TimeoutPromise : Type :=
| RejectsAfter (ms : N).

Definition timeout (ms : N) : M TimeoutPromise :=
  fun w => (emit (SetTimeout RejectRequestTimeout ms) w, Normal (RejectsAfter ms)).

(** *** The browser primitives used by [fetchVisitorCount] *)

(** [fetch(url, {method, ...})]: the request leaves now; the promise is the
    next one of the network. *)
Definition fetch (net : Network) (url method : string) : M FetchPromise :=
  fun w =>
    let p := net (length (fetch_calls w)) in
    (emit (FetchCall url method p) w, Normal p).

(** [await Promise.race([fetchPromise, timer])], both promises created at the
    current instant: the one that settles first decides.  A fetch that settles
    exactly when the timer fires counts as late. *)
Definition await_race (fetchPromise : FetchPromise) (timer : TimeoutPromise)
  : M Response :=
  fun w =>
    let 'RejectsAfter ms := timer in
    match fetchPromise with
    | SettlesAfter latency s =>
        if (latency <? ms)%N then
          (advance latency w,
           match s with
           | Fulfilled r => Normal r
           | Rejected => Throw NetworkFailure
           end)
        else (advance ms w, Throw RequestTimeout)
    | NeverSettles => (advance ms w, Throw RequestTimeout)
    end.

(** [await response.json()] (line 49).  No timer is raced against this
    promise: the function resumes when the body has been read, and never
    when the body never ends. *)
Definition await_json (response : Response) : M JsValue :=
  fun w =>
    match body response with
    | JsonBody data => (advance (body_latency response) w, Normal data)
    | MalformedBody => (advance (body_latency response) w, Throw BodySyntaxError)
    | InterruptedBody => (advance (body_latency response) w, Throw NetworkFailure)
    | StalledBody => (w, Pending)
    end.

(** [await new Promise(resolve => setTimeout(resolve, ms))] *)
Definition await_delay (ms : N) : M unit :=
  fun w => (advance ms (emit (SetTimeout ResolveDelay ms) w), Normal tt).

(** [performance.now()] *)
Definition performance_now (w : World) : Q := inject_Z (Z.of_N (clock w)).

(** *** [animateValue], the part that runs at once (lines 88-91, 109) *)

Definition animateValue (start end_ duration : Q) : M unit :=
  fun w =>
    (start_animation
       {| anim_start := start; anim_end := end_; anim_duration := duration;
          anim_startTime := performance_now w |} w,
     Normal tt).

(** *** [updateCounter] (lines 80-85) *)

Definition updateCounter (count : Q) : M unit :=
  animateValue 0%Q count 1000%Q.

(** *** [fetchVisitorCount] (lines 24-77) *)

(** The default value of the parameter: [attempt = 1]. *)
Definition attempt_or_default (arg : option Attempt) : Attempt :=
  default (AttemptNumber 1) arg.

(** The [try] block, lines 28-60. *)
Definition try_block (net : Network) (attempt : Attempt) : M unit :=
  console_log (LogFetching attempt (retryAttempts config));;
  fetchPromise ← fetch net (apiEndpoint config) "POST";
  timer ← timeout (timeout_ms config);
  response ← await_race fetchPromise timer;
  if negb (ok response) then throw (HttpError (status response)) else
  data ← await_json response;
  console_log (LogDataReceived data);;
  count ← lift (extract_count data);
  match count with
  | JsNumber c =>
      updateCounter c;;
      console_log (LogUpdated c)
  | _ => throw InvalidCountFormat
  end.

(** Lines 72-74: all attempts failed. *)
Definition all_attempts_failed (w : World) : World :=
  let w1 := emit (Console ErrorAllFailed) w in
  let el1 := {| textContent := "Error"; color := color (counterElement w1) |} in
  let el2 := {| textContent := textContent el1; color := "#ef4444" |} in
  set_element el2 w1.

(** [attempt < limit]: false when [attempt] converts to NaN. *)
Definition less_than (attempt : Attempt) (limit : nat) : bool :=
  match attempt with
  | AttemptNumber n => n <? limit
  | AttemptEvent => false
  end.

(** [attempt + 1]: for the event object this is a string built from it,
    which converts to NaN as well. *)
Definition plus_one (attempt : Attempt) : Attempt :=
  match attempt with
  | AttemptNumber n => AttemptNumber (n + 1)
  | AttemptEvent => AttemptEvent
  end.

(** The recursion of [fetchVisitorCount] ends because this number falls. *)
Definition attempts_left (attempt : Attempt) : nat :=
  match attempt with
  | AttemptNumber n => retryAttempts config - n
  | AttemptEvent => 0
  end.

(** The [catch] block up to the test of line 66. *)
Definition catch_prologue (attempt : Attempt) (error : JsError) (w : World)
  : World :=
  emit (Console (ErrorFetching attempt error)) w.

(** Lines 67-68: announce the retry and wait. *)
Definition wait_before_retry (w : World) : World :=
  fst (await_delay (retryDelay config)
         (emit (Console (LogRetrying (retryDelay config))) w)).

(** A value together with the equation that it is the value of [a]. *)
Definition inspect {A} (a : A) : {b : A | a = b} := exist _ a eq_refl.

#[local] Arguments try_block : simpl never.

Equations? fetchVisitorCount (net : Network) (arg : option Attempt) (w : World)
  : World by wf (attempts_left (attempt_or_default arg)) lt :=
fetchVisitorCount net arg w with try_block net (attempt_or_default arg) w => {
  | (w1, Normal _) => w1
  | (w1, Throw error)
      with inspect (less_than (attempt_or_default arg) (retryAttempts config)) => {
      | exist _ true retry =>
          fetchVisitorCount net (Some (plus_one (attempt_or_default arg)))
            (wait_before_retry
               (catch_prologue (attempt_or_default arg) error w1))
      | exist _ false _ =>
          all_attempts_failed
            (catch_prologue (attempt_or_default arg) error w1) }
  | (w1, Pending) => w1 }.
Proof.
  destruct (attempt_or_default arg) as [n|]; simpl in *; [|discriminate].
  apply Nat.ltb_lt in retry. lia.
Qed.

(** *** [animateValue], the frame callback [update] (lines 92-107) *)

Section Frames.

(** [Number.prototype.toLocaleString], which depends on the locale of the
    browser. *)
Variable toLocaleString : Q -> string.

(** [range], line 90. *)
Definition range (a : Animation) : Q := (anim_end a - anim_start a)%Q.

(** Lines 93-94: [Math.min(elapsed / duration, 1)]. *)
Definition progress (a : Animation) (currentTime : Q) : Q :=
  let elapsed := (currentTime - anim_startTime a)%Q in
  Qmin (elapsed / anim_duration a)%Q 1%Q.

(** Line 97: [1 - Math.pow(1 - progress, 3)]. *)
Definition easeOut (progress : Q) : Q := (1 - (1 - progress) ^ 3)%Q.

(** Line 98: [Math.floor(start + (range * easeOut))]. *)
Definition current (a : Animation) (currentTime : Q) : Z :=
  Qfloor (anim_start a + range a * easeOut (progress a currentTime))%Q.

Definition set_textContent (text : string) (element : Element) : Element :=
  {| textContent := text; color := color element |}.

(** One call of [update]: the element afterwards, and whether another frame
    was requested. *)
Definition update (a : Animation) (currentTime : Q) (element : Element)
  : Element * bool :=
  let element1 :=
    set_textContent (toLocaleString (inject_Z (current a currentTime))) element in
  if Qlt_le_dec (progress a currentTime) 1%Q then
    (element1, true)
  else
    (set_textContent (toLocaleString (anim_end a)) element1, false).

(** The browser calls [update] once per frame, with the timestamps given,
    for as long as a frame is requested. *)
Fixpoint run_frames (a : Animation) (timestamps : list Q) (element : Element)
  : Element * bool :=
  match timestamps with
  | [] => (element, true)
  | t :: rest =>
      let '(element1, again) := update a t element in
      if again then run_frames a rest element1 else (element1, false)
  end.

End Frames.

(** The number on display when the call of [update] at [currentTime]
    returns. *)
Definition shown (a : Animation) (currentTime : Q) : Q :=
  if Qlt_le_dec (progress a currentTime) 1%Q then
    inject_Z (current a currentTime)
  else anim_end a.

(** The numbers on display after each frame that [run_frames] processes. *)
Fixpoint shown_values (a : Animation) (timestamps : list Q) : list Q :=
  match timestamps with
  | [] => []
  | t :: rest =>
      shown a t ::
      (if Qlt_le_dec (progress a t) 1%Q then shown_values a rest else [])
  end.

(** *** Observations on a run *)

(** The page before the script runs. *)
Definition initial_world (now : N) (element : Element) : World :=
  {| clock := now; counterElement := element; animations := []; trace := [] |}.

(** How long [await Promise.race(...)] takes for a promise, and whether the
    fetch is the one that settled. *)
Definition race_duration (p : FetchPromise) : N :=
  match p with
  | SettlesAfter latency _ =>
      if (latency <? timeout_ms config)%N then latency else timeout_ms config
  | NeverSettles => timeout_ms config
  end.

(** How long [await response.json()] takes for a promise, where line 49 is
    reached and the body is read to its end. *)
Definition json_duration (p : FetchPromise) : N :=
  match p with
  | SettlesAfter latency (Fulfilled r) =>
      if (latency <? timeout_ms config)%N && ok r then
        match body r with
        | StalledBody => 0
        | _ => body_latency r
        end
      else 0
  | _ => 0
  end.

(** How long one attempt takes, from the call of [fetch] until the [try]
    block is left (or, for a body that never ends, until line 49 is
    reached). *)
Definition attempt_duration (p : FetchPromise) : N :=
  (race_duration p + json_duration p)%N.

(** The result of one attempt, read off the promise: the count handed to
    [updateCounter], the error thrown inside the [try] block, or no result
    when the body never ends. *)
Definition attempt_result (p : FetchPromise) : Completion Q :=
  match p with
  | SettlesAfter latency s =>
      if (latency <? timeout_ms config)%N then
        match s with
        | Rejected => Throw NetworkFailure
        | Fulfilled r =>
            if negb (ok r) then Throw (HttpError (status r)) else
            match body r with
            | MalformedBody => Throw BodySyntaxError
            | InterruptedBody => Throw NetworkFailure
            | StalledBody => Pending
            | JsonBody data =>
                match extract_count data with
                | Throw e => Throw e
                | Pending => Pending
                | Normal (JsNumber c) => Normal c
                | Normal _ => Throw InvalidCountFormat
                end
            end
        end
      else Throw RequestTimeout
  | NeverSettles => Throw RequestTimeout
  end.

Definition attempt_fails (p : FetchPromise) : Prop :=
  exists e, attempt_result p = Throw e.

(** The times at which [fetch] was called, oldest first. *)
Definition fetch_times (w : World) : list N :=
  rev (map fst (fetch_calls w)).

(** Requests in flight at time [t]: sent, and the network has not settled
    them. *)
Definition unsettled (t : N) (call : N * FetchPromise) : bool :=
  let '(sent, p) := call in
  (sent <=? t)%N &&
  match p with
  | SettlesAfter latency _ => (t <? sent + latency)%N
  | NeverSettles => true
  end.

Definition in_flight (w : World) (t : N) : nat :=
  length (filter (fun call => unsettled t call = true) (fetch_calls w)).

(** Attempts being awaited at time [t]: sent, and the [try] block has not
    been left: the race of line 40 or the body of line 49 has not settled. *)
Definition awaited_call (t : N) (call : N * FetchPromise) : bool :=
  let '(sent, p) := call in
  (sent <=? t)%N &&
  match attempt_result p with
  | Pending => true
  | _ => (t <? sent + attempt_duration p)%N
  end.

Definition awaited (w : World) (t : N) : nat :=
  length (filter (fun call => awaited_call t call = true) (fetch_calls w)).

(** What a run leaves behind, as far as the properties below look at it. *)

(** The waits between attempts: when each was started and for how long. *)
Definition delay_timers (w : World) : list (N * N) :=
  omap (fun '(t, cb, ms) =>
          match cb with
          | ResolveDelay => Some (t, ms)
          | RejectRequestTimeout => None
          end) (timers_of (trace w)).

(** The timers raced against the fetches: when each was set and for how
    long. *)
Definition timeout_timers (w : World) : list (N * N) :=
  omap (fun '(t, cb, ms) =>
          match cb with
          | RejectRequestTimeout => Some (t, ms)
          | ResolveDelay => None
          end) (timers_of (trace w)).

Record Observed : Type := {
  obs_calls : list (N * FetchPromise);   (* newest first *)
  obs_timeouts : list (N * N);           (* newest first *)
  obs_delays : list (N * N);             (* newest first *)
  obs_element : Element;
  obs_animations : list Animation;
  obs_clock : N
}.

Definition observe (w : World) : Observed :=
  {| obs_calls := fetch_calls w;
     obs_timeouts := timeout_timers w;
     obs_delays := delay_timers w;
     obs_element := counterElement w;
     obs_animations := animations w;
     obs_clock := clock w |}.

(** The effect of the client on these observations, attempt by attempt, as
    a machine that counts the retries still allowed.  [fetchVisitorCount] is
    shown below to behave as this machine does. *)

(** Every attempt: a fetch, a timer for [config.timeout], the wait for the
    first of the two to settle and, after a response in time with a success
    status, the wait for its body. *)
Definition after_attempt (p : FetchPromise) (o : Observed) : Observed :=
  {| obs_calls := (obs_clock o, p) :: obs_calls o;
     obs_timeouts := (obs_clock o, timeout_ms config) :: obs_timeouts o;
     obs_delays := obs_delays o;
     obs_element := obs_element o;
     obs_animations := obs_animations o;
     obs_clock := (obs_clock o + attempt_duration p)%N |}.

(** Success: the animation towards [count] starts. *)
Definition after_success (count : Q) (o : Observed) : Observed :=
  {| obs_calls := obs_calls o;
     obs_timeouts := obs_timeouts o;
     obs_delays := obs_delays o;
     obs_element := obs_element o;
     obs_animations :=
       {| anim_start := 0; anim_end := count; anim_duration := 1000;
          anim_startTime := inject_Z (Z.of_N (obs_clock o)) |}
       :: obs_animations o;
     obs_clock := obs_clock o |}.

(** Failure with a retry allowed: wait for [config.retryDelay]. *)
Definition after_delay (o : Observed) : Observed :=
  {| obs_calls := obs_calls o;
     obs_timeouts := obs_timeouts o;
     obs_delays := (obs_clock o, retryDelay config) :: obs_delays o;
     obs_element := obs_element o;
     obs_animations := obs_animations o;
     obs_clock := (obs_clock o + retryDelay config)%N |}.

(** Failure with no retry left: the error indicator. *)
Definition after_failure (o : Observed) : Observed :=
  {| obs_calls := obs_calls o;
     obs_timeouts := obs_timeouts o;
     obs_delays := obs_delays o;
     obs_element := {| textContent := "Error"; color := "#ef4444" |};
     obs_animations := obs_animations o;
     obs_clock := obs_clock o |}.

Fixpoint machine (net : Network) (retries : nat) (o : Observed) : Observed :=
  let p := net (length (obs_calls o)) in
  let o1 := after_attempt p o in
  match attempt_result p with
  | Normal count => after_success count o1
  | Throw _ =>
      match retries with
      | O => after_failure o1
      | S retries' => machine net retries' (after_delay o1)
      end
  | Pending => o1
  end.

(** The observations with all times removed: how many requests, the
    lengths of the waits, the element, and the counts animated to. *)
Definition untimed (o : Observed) : nat * list N * Element * list Q :=
  (length (obs_calls o), map snd (obs_delays o), obs_element o,
   map anim_end (obs_animations o)).

(** What an attempt means for the retry logic: a count, a failure, or an
    attempt that never ends. *)
Inductive Verdict : Type :=
| Counted (count : Q)
| Failed
| NeverEnds.

Definition verdict (p : FetchPromise) : Verdict :=
  match attempt_result p with
  | Normal count => Counted count
  | Throw _ => Failed
  | Pending => NeverEnds
  end.

(** The timer wins the race of line 40. *)
Definition timer_settles_first (p : FetchPromise) : Prop :=
  match p with
  | SettlesAfter latency _ => (timeout_ms config <= latency)%N
  | NeverSettles => True
  end.

(** No accepted member name holds a number. *)
Definition no_numeric_count (data : JsValue) : Prop :=
  Forall (fun name => is_number (field data name) = false) accepted_names.

(** Not a number other than zero. *)
Definition zero_or_not_number (v : JsValue) : Prop :=
  match v with
  | JsNumber q => (q == 0)%Q
  | _ => True
  end.

(** *** The last lines of the script (113-117) *)

(** [loading] is [document.readyState === 'loading'].  When it holds,
    [fetchVisitorCount] is registered as a listener and later called with the
    event object as its argument; otherwise it is called with no argument. *)
Definition initialize (net : Network) (loading : bool) (w : World) : World :=
  if loading then fetchVisitorCount net (Some AttemptEvent) w
  else fetchVisitorCount net None w.

(** *** Environments used in the examples *)

Definition blank : Element := {| textContent := ""; color := "" |}.

(** A server that answers status 200 with the given body after [latency]. *)
Definition answers (latency : N) (data : JsValue) : FetchPromise :=
  SettlesAfter latency
    (Fulfilled {| status := 200; body := JsonBody data; body_latency := 0 |}).

(** A server that answers status 500 after 80 ms, every time. *)
Definition always_500 : Network :=
  fun _ => SettlesAfter 80
    (Fulfilled {| status := 500; body := MalformedBody; body_latency := 0 |}).

(** A server that never answers. *)
Definition silent : Network := fun _ => NeverSettles.

(** A server that needs 8 seconds for each answer. *)
Definition slow : Network :=
  fun _ => answers 8000 (JsObject {[ "count" := JsNumber 7 ]}).

(** A healthy server: the count 1 after 35 ms. *)
Definition healthy : Network :=
  fun _ => answers 35 (JsObject {[ "count" := JsNumber 1;
                                   "message" := JsString "Visitor count updated successfully" ]}).

(** A server that reports the count 1000 after 100 ms. *)
Definition thousand : Network :=
  fun _ => answers 100 (JsObject {[ "count" := JsNumber 1000 ]}).

(** A server whose answers carry no count. *)
Definition wrong_shape : Network :=
  fun _ => answers 60 (JsObject {[ "message" := JsString "hello" ]}).

(** A server that reports the count 0 under the name visitorCount. *)
Definition zero_visitorCount : Network :=
  fun _ => answers 100 (JsObject {[ "visitorCount" := JsNumber 0 ]}).

(** A server that answers at once with status 200 and a body that never
    ends. *)
Definition stalling : Network :=
  fun _ => SettlesAfter 50
    (Fulfilled {| status := 200; body := StalledBody; body_latency := 0 |}).

(** A server whose headers arrive after 50 ms and whose body, the count 7,
    takes a minute. *)
Definition slow_body : Network :=
  fun _ => SettlesAfter 50
    (Fulfilled {| status := 200;
                  body := JsonBody (JsObject {[ "count" := JsNumber 7 ]});
                  body_latency := 60000 |}).

(** A server whose body takes 300 ms to arrive and is not JSON. *)
Definition garbled : Network :=
  fun _ => SettlesAfter 50
    (Fulfilled {| status := 200; body := MalformedBody; body_latency := 300 |}).

(** The first request times out, the second is answered with count 5. *)
Definition second_time_lucky : Network :=
  fun n => match n with
           | O => NeverSettles
           | _ => answers 120 (JsObject {[ "count" := JsNumber 5 ]})
           end.

(** *** Further observations on the trace *)

(** The element as line 73-74 leave it. *)
Definition error_element : Element :=
  {| textContent := "Error"; color := "#ef4444" |}.

(** The requests sent so far, newest first: the URL and the method of each. *)
Fixpoint requests_of (tr : list (N * Event)) : list (string * string) :=
  match tr with
  | [] => []
  | (_, FetchCall url method _) :: tr' => (url, method) :: requests_of tr'
  | _ :: tr' => requests_of tr'
  end.

(** The entries written by the [console.error] of line 63, newest first:
    the attempt and the error caught. *)
Fixpoint fetch_errors_of (tr : list (N * Event)) : list (Attempt * JsError) :=
  match tr with
  | [] => []
  | (_, Console (ErrorFetching attempt error)) :: tr' =>
      (attempt, error) :: fetch_errors_of tr'
  | _ :: tr' => fetch_errors_of tr'
  end.

(** How often line 72 has reported that all attempts failed. *)
Fixpoint gave_up_of (tr : list (N * Event)) : nat :=
  match tr with
  | [] => O
  | (_, Console ErrorAllFailed) :: tr' => S (gave_up_of tr')
  | _ :: tr' => gave_up_of tr'
  end.

(** Whether the run has stopped at line 49, waiting for the body of its
    last request, which never ends: 1 when it has, 0 otherwise. *)
Definition hanging (w : World) : nat :=
  match fetch_calls w with
  | (_, p) :: _ =>
      match attempt_result p with
      | Pending => 1
      | _ => 0
      end
  | [] => 0
  end.

(** When request number [k] leaves, if the first one leaves at [start] and
    every request before it fails. *)
Fixpoint departure (net : Network) (start : N) (k : nat) : N :=
  match k with
  | O => start
  | S k' => (departure net start k' + attempt_duration (net k') + retryDelay config)%N
  end.

(** The [console.error] entries of line 63 that a run is to leave, oldest
    first, when it starts with [attempt] at the request number [k] and
    [retries] retries are still allowed. *)
Fixpoint expected_errors (net : Network) (retries : nat) (attempt : Attempt)
  (k : nat) : list (Attempt * JsError) :=
  match attempt_result (net k) with
  | Normal _ | Pending => []
  | Throw e =>
      (attempt, e) ::
      match retries with
      | O => []
      | S retries' => expected_errors net retries' (plus_one attempt) (S k)
      end
  end.

(** A frame that arrives when the duration has elapsed. *)
Definition late_frame (a : Animation) (t : Q) : Prop :=
  (anim_startTime a + anim_duration a <= t)%Q.

(** A body whose member count is the string 42 while visitor_count is the
    number 42. *)
Definition count_as_string : JsValue :=
  JsObject {[ "count" := JsString "42"; "visitor_count" := JsNumber 42 ]}.

End Client.

(** ** A locale for the examples: en-US *)

Module Locale.

(** Three decimal digits, zero padded. *)
Definition pad3 (n : N) : string :=
  let d := pretty n in
  match String.length d with
  | 1 => "00" +:+ d
  | 2 => "0" +:+ d
  | _ => d
  end.

(** The integer part with a comma between groups of three digits. *)
Fixpoint grouped (fuel : nat) (n : N) : string :=
  match fuel with
  | O => pretty n
  | S fuel' =>
      if (n <? 1000)%N then pretty n
      else grouped fuel' (n / 1000)%N +:+ "," +:+ pad3 (n mod 1000)%N
  end.

(** The fraction digits of a number of thousandths, trailing zeros removed. *)
Definition fraction (thousandths : N) : string :=
  if (thousandths =? 0)%N then ""
  else if (thousandths mod 100 =? 0)%N then "." +:+ pretty (thousandths / 100)%N
  else if (thousandths mod 10 =? 0)%N then
    "." +:+ String.substring 0 2 (pad3 thousandths)
  else "." +:+ pad3 thousandths.

(** [toLocaleString] of a number in the en-US locale: at most three fraction
    digits, rounded half away from zero. *)
Definition toLocaleString (q : Q) : string :=
  let thousandths := Z.to_N (Qfloor (Qabs q * 1000 + (1 # 2))%Q) in
  let whole := (thousandths / 1000)%N in
  (if Qlt_le_dec q 0%Q then "-" else "") +:+
  grouped (N.to_nat (N.log2 whole)) whole +:+ fraction (thousandths mod 1000)%N.

(** A text with its grouping commas left out. *)
Fixpoint ungroup (s : string) : string :=
  match s with
  | EmptyString => EmptyString
  | String c rest =>
      if String.eqb (String c "") "," then ungroup rest
      else String c (ungroup rest)
  end.

End Locale.

(** ** The counter service *)

Module Service.

(** The body of a response: empty, the count with its message, or an error
    with its message. *)
Inductive ResponseBody : Type :=
| EmptyBody
| CountBody (count : Z) (message : string)
| ErrorBody (error message : string).

Record HttpResponse : Type := {
  statusCode : Z;
  headers : gmap string string;
  body : ResponseBody
}.

(** A handler invocation, as the storage layer sees it: it returns a
    response, or it issues one storage operation and continues with the
    result ([None]: the operation failed).  Each operation takes effect at
    once; invocations interleave between operations. *)
Inductive Prog : Type :=
| Return (r : HttpResponse)
| AtomicAdd (key : string) (delta : Z) (k : option Z -> Prog)
| GetItem (key : string) (k : option Z -> Prog)
| PutItem (key : string) (v : Z) (k : bool -> Prog).

(** The count of a record; a record that does not exist yet counts 0. *)
Definition count_of (table : gmap string Z) (key : string) : Z :=
  default 0%Z (table !! key).

(** One storage operation of an invocation. [available] says whether the
    storage backend serves it. *)
Definition step (available : bool) (p : Prog) (table : gmap string Z)
  : Prog * gmap string Z :=
  match p with
  | Return r => (Return r, table)
  | AtomicAdd key delta k =>
      if available then
        let v := (count_of table key + delta)%Z in
        (k (Some v), <[key := v]> table)
      else (k None, table)
  | GetItem key k =>
      if available then (k (Some (count_of table key)), table)
      else (k None, table)
  | PutItem key v k =>
      if available then (k true, <[key := v]> table)
      else (k false, table)
  end.

(** Concurrent invocations under a schedule: each entry names the invocation
    that performs its next operation. *)
Fixpoint run (schedule : list (nat * bool)) (pool : list Prog)
  (table : gmap string Z) : list Prog * gmap string Z :=
  match schedule with
  | [] => (pool, table)
  | (i, available) :: rest =>
      match pool !! i with
      | Some p =>
          let '(p', table') := step available p table in
          run rest (<[i := p']> pool) table'
      | None => run rest pool table
      end
  end.

(** An invocation that returned a success response. *)
Definition succeeded (p : Prog) : bool :=
  match p with
  | Return r => (statusCode r =? 200)%Z &&
      match body r with
      | CountBody _ _ => true
      | _ => false
      end
  | _ => false
  end.

Definition returned (p : Prog) : bool :=
  match p with
  | Return _ => true
  | _ => false
  end.

(** How many invocations of a pool have returned success. *)
Definition successes (pool : list Prog) : nat :=
  length (filter (fun p => succeeded p = true) pool).

Definition cors_headers : gmap string string :=
  {[ "Access-Control-Allow-Origin" := "*";
     "Access-Control-Allow-Headers" := "Content-Type";
     "Access-Control-Allow-Methods" := "OPTIONS,POST,GET" ]}.

Section Handler.

(** The fixed identifier of the Counter Record. *)
Variable counter_id : string.

(** Modelled from the spec: the handler [backend/lambda_function.py] is not
    among the sources.  The OPTIONS branch is the excerpt quoted in README.md
    (Challenge 1); the increment path follows sections 4.1 and 6 of the
    specification: one atomic increment of the Counter Record by 1, then
    status 200 with the new count, or an error response when storage fails,
    every response with the headers of the OPTIONS response. *)
Definition lambda_handler (event : gmap string string) : Prog :=
  if decide (event !! "httpMethod" = Some "OPTIONS") then
    Return {| statusCode := 200; headers := cors_headers; body := EmptyBody |}
  else
    AtomicAdd counter_id 1 (fun result =>
      match result with
      | Some count =>
          Return {| statusCode := 200; headers := cors_headers;
                    body := CountBody count "Visitor count updated successfully" |}
      | None =>
          Return {| statusCode := 500; headers := cors_headers;
                    body := ErrorBody "Failed to update visitor count"
                              "Error details" |}
      end).

(** Modelled from the spec: the increment the specification forbids,
    a read followed by a write, for comparison. *)
Definition read_then_write_handler (event : gmap string string) : Prog :=
  GetItem counter_id (fun result =>
    match result with
    | Some count =>
        PutItem counter_id (count + 1) (fun written =>
          Return {| statusCode := if written then 200%Z else 500%Z;
                    headers := cors_headers;
                    body := if written
                            then CountBody (count + 1)
                                   "Visitor count updated successfully"
                            else ErrorBody "Failed to update visitor count"
                                   "Error details" |})
    | None =>
        Return {| statusCode := 500; headers := cors_headers;
                  body := ErrorBody "Failed to update visitor count"
                            "Error details" |}
    end).

(** A pool of increment calls: each invocation is still to perform its one
    operation, or has returned. *)
Definition increment_pool (pool : list Prog) : Prop :=
  Forall (fun p => p = lambda_handler ∅ \/ returned p = true) pool.

End Handler.

(** A POST request and a preflight request, as the gateway hands them to
    the handler. *)
Definition post_event : gmap string string :=
  {[ "httpMethod" := "POST"; "path" := "/visitor-count" ]}.

Definition options_event : gmap string string :=
  {[ "httpMethod" := "OPTIONS"; "path" := "/visitor-count" ]}.

End Service.

(** ** The development script (dev.sh) *)

Module DevScript.

(** What the script writes and what it runs, line by line. *)
Inductive Line : Type :=
| Success (msg : string)       (* print_success *)
| Failure (msg : string)       (* print_error *)
| Info (msg : string)          (* print_info *)
| Echo (msg : string)          (* echo *)
| Help                         (* the text of show_help *)
| Run (cmd : string).          (* a command is run *)

(** The machine the script runs on: which tools [command -v] finds, whether
    the directory backend/venv exists, and the exit status and the output of
    the n-th command the script runs (n from 0). *)
Record Env : Type := {
  installed : string -> bool;
  venv_exists : bool;
  status : nat -> nat;
  output : nat -> string
}.

Record Shell : Type := {
  transcript : list Line;      (* oldest first *)
  commands : nat               (* how many commands were run *)
}.

(** A step either lets the script go on or ends it with an exit status. *)
Inductive Outcome (A : Type) : Type :=
| Continue (a : A)
| Exit (code : nat).
Arguments Continue {A} a.
Arguments Exit {A} code.

Definition Sh (A : Type) : Type := Shell -> Shell * Outcome A.

#[global] Instance Sh_ret : MRet Sh := fun A a s => (s, Continue a).
#[global] Instance Sh_bind : MBind Sh := fun A B k c s =>
  match c s with
  | (s1, Continue a) => k a s1
  | (s1, Exit code) => (s1, Exit code)
  end.

Definition print (l : Line) : Sh unit :=
  fun s => ({| transcript := transcript s ++ [l]; commands := commands s |},
            Continue tt).

(** Lines 15-25. *)
Definition print_success (msg : string) : Sh unit := print (Success msg).
Definition print_error (msg : string) : Sh unit := print (Failure msg).
Definition print_info (msg : string) : Sh unit := print (Info msg).
Definition echo (msg : string) : Sh unit := print (Echo msg).

Definition exit {A} (code : nat) : Sh A := fun s => (s, Exit code).

(** A simple command under [set -e] (line 6): when its status is not 0 the
    script ends with that status; otherwise the script goes on, the status
    being what [$?] then holds. *)
Definition sh (env : Env) (cmd : string) : Sh nat :=
  fun s =>
    let st := status env (commands s) in
    let s1 := {| transcript := transcript s ++ [Run cmd];
                 commands := S (commands s) |} in
    if (st =? 0)%nat then (s1, Continue st) else (s1, Exit st).

(** An assignment [var=$(cmd)]: its status is that of the command, so
    [set -e] applies to it as well; the value is what the command wrote. *)
Definition capture (env : Env) (cmd : string) : Sh string :=
  fun s =>
    let st := status env (commands s) in
    let s1 := {| transcript := transcript s ++ [Run cmd];
                 commands := S (commands s) |} in
    if (st =? 0)%nat then (s1, Continue (output env (commands s)))
    else (s1, Exit st).

(** [[ $text == *"needle"* ]]: the needle occurs in the text. *)
Fixpoint contains (needle text : string) : bool :=
  String.prefix needle text ||
  match text with
  | EmptyString => false
  | String _ rest => contains needle rest
  end.

(** The loop of lines 33-40. *)
Fixpoint require_all (env : Env) (cmds : list string) : Sh unit :=
  match cmds with
  | [] => mret tt
  | cmd :: rest =>
      (if installed env cmd then print_success (cmd +:+ " is installed")
       else (print_error (cmd +:+ " is not installed");; exit 1));;
      require_all env rest
  end.

(** Lines 28-48. *)
Definition check_prerequisites (env : Env) : Sh unit :=
  print_info "Checking prerequisites...";;
  require_all env ["python3"; "pip"; "aws"];;
  if installed env "sam" then print_success "SAM CLI is installed"
  else print_info "SAM is not installed (use CloudShell for SAM operations)".

(** Lines 51-64. *)
Definition setup_venv (env : Env) : Sh unit :=
  print_info "Setting up Python virtual environment...";;
  (if negb (venv_exists env) then
     sh env "python3 -m venv backend/venv";;
     print_success "Virtual environment created"
   else print_info "Virtual environment already exists");;
  sh env "source backend/venv/bin/activate";;
  sh env "pip install -r backend/requirements.txt";;
  print_success "Dependencies installed".

(** Lines 67-83. *)
Definition run_tests (env : Env) : Sh unit :=
  print_info "Running backend tests...";;
  sh env "cd backend";;
  sh env "source venv/bin/activate";;
  st ← sh env "pytest test_lambda_function.py -v --cov=lambda_function --cov-report=term-missing";
  (if (st =? 0)%nat then print_success "All tests passed!"
   else (print_error "Tests failed!";; exit 1));;
  sh env "cd ..";;
  mret tt.

(** Lines 86-100. *)
Definition build_sam (env : Env) : Sh unit :=
  print_info "Building SAM application...";;
  sh env "cd backend";;
  st ← sh env "sam build";
  (if (st =? 0)%nat then print_success "SAM build successful!"
   else (print_error "SAM build failed!";; exit 1));;
  sh env "cd ..";;
  mret tt.

(** Lines 103-110. *)
Definition start_local_api (env : Env) : Sh unit :=
  print_info "Starting local API Gateway and Lambda...";;
  print_info "API will be available at http://localhost:3000";;
  sh env "cd backend";;
  sh env "sam local start-api --port 3000";;
  sh env "cd ..";;
  mret tt.

(** Lines 113-125. *)
Definition test_local_api (env : Env) : Sh unit :=
  print_info "Testing local API...";;
  response ← capture env "curl -s -X POST http://localhost:3000/visitor-count";
  if contains "count" response then
    print_success "Local API is working!";;
    echo ("Response: " +:+ response)
  else
    print_error "Local API test failed!";;
    echo ("Response: " +:+ response).

(** Lines 128-142. *)
Definition validate_sam (env : Env) : Sh unit :=
  print_info "Validating SAM template...";;
  sh env "cd backend";;
  st ← sh env "sam validate --lint";
  (if (st =? 0)%nat then print_success "SAM template is valid!"
   else (print_error "SAM template validation failed!";; exit 1));;
  sh env "cd ..";;
  mret tt.

(** Lines 145-160. *)
Definition deploy (env : Env) : Sh unit :=
  print_info "Deploying to AWS...";;
  sh env "cd backend";;
  sh env "sam build";;
  st ← sh env "sam deploy";
  (if (st =? 0)%nat then print_success "Deployment successful!"
   else (print_error "Deployment failed!";; exit 1));;
  sh env "cd ..";;
  mret tt.

(** Lines 163-174. *)
Definition clean (env : Env) : Sh unit :=
  print_info "Cleaning build artifacts...";;
  sh env "rm -rf backend/.aws-sam";;
  sh env "rm -rf backend/venv";;
  sh env "rm -rf backend/__pycache__";;
  sh env "rm -rf backend/.pytest_cache";;
  sh env "rm -rf backend/htmlcov";;
  sh env "rm -rf backend/.coverage";;
  print_success "Cleanup complete!".

(** Lines 177-211; the here-document is taken to be written without
    fail. *)
Definition show_help : Sh unit := print Help.

(** The commands the script knows besides help. *)
Definition known_commands : list string :=
  ["check"; "setup"; "test"; "build"; "validate"; "local-api"; "test-api";
   "deploy"; "clean"; "all"].

(** Lines 214-254: [case "${1}" in ...]; [arg] is empty when the script is
    called without an argument. *)
Definition main (env : Env) (arg : string) : Sh unit :=
  if String.eqb arg "check" then check_prerequisites env
  else if String.eqb arg "setup" then
    check_prerequisites env;; setup_venv env
  else if String.eqb arg "test" then run_tests env
  else if String.eqb arg "build" then build_sam env
  else if String.eqb arg "validate" then validate_sam env
  else if String.eqb arg "local-api" then start_local_api env
  else if String.eqb arg "test-api" then test_local_api env
  else if String.eqb arg "deploy" then deploy env
  else if String.eqb arg "clean" then clean env
  else if String.eqb arg "all" then
    check_prerequisites env;;
    setup_venv env;;
    validate_sam env;;
    run_tests env;;
    build_sam env;;
    print_success "All validations and tests completed successfully!"
  else show_help.

(** A run of the script: what it wrote and ran, and its exit status. *)
Definition script (env : Env) (arg : string) : list Line * nat :=
  let '(s, outcome) := main env arg {| transcript := []; commands := 0 |} in
  (transcript s,
   match outcome with
   | Continue _ => 0%nat
   | Exit code => code
   end).

(** The commands run, in order. *)
Definition commands_run (lines : list Line) : list string :=
  omap (fun l => match l with Run cmd => Some cmd | _ => None end) lines.

(** The messages of the failure reports that follow a command. *)
Definition failure_reports : list string :=
  ["Tests failed!"; "SAM build failed!"; "SAM template validation failed!";
   "Deployment failed!"].

(** One of the failure reports that follow a command. *)
Definition is_report (l : Line) : bool :=
  match l with
  | Failure msg => bool_decide (msg ∈ failure_reports)
  | _ => false
  end.

(** The report of a missing tool (line 37). *)
Definition is_missing_tool (l : Line) : Prop :=
  exists cmd, l = Failure (cmd +:+ " is not installed").

(** The script is running: none of the failure reports was written, and
    every command run so far has succeeded. *)
Definition running (env : Env) (s : Shell) : Prop :=
  Forall (fun l => is_report l = false) (transcript s) /\
  length (commands_run (transcript s)) = commands s /\
  forall k, (k < commands s)%nat -> status env k = 0%nat.

(** The script has ended with a status other than 0: right after a command
    with that status, or with status 1 right after the report of a missing
    tool. *)
Definition stopped (env : Env) (code : nat) (s : Shell) : Prop :=
  Forall (fun l => is_report l = false) (transcript s) /\
  length (commands_run (transcript s)) = commands s /\
  (forall k, (S k < commands s)%nat -> status env k = 0%nat) /\
  code <> 0%nat /\
  ((exists cmd, last (transcript s) = Some (Run cmd) /\
                (0 < commands s)%nat /\
                code = status env (commands s - 1)) \/
   (code = 1%nat /\ exists l, last (transcript s) = Some l /\ is_missing_tool l)).

(** A step that keeps the script running, with a result that satisfies [Q],
    or stops it as [stopped] says. *)
Definition fails_fast (env : Env) {A} (m : Sh A) (Q : A -> Prop) : Prop :=
  forall s, running env s ->
    match m s with
    | (s1, Continue a) => running env s1 /\ Q a
    | (s1, Exit code) => stopped env code s1
    end.

(** A machine with every tool, on which every command succeeds, except
    that the command number [n] ends with status [code]. *)
Definition failing_at (n code : nat) (reply : string) : Env :=
  {| installed := fun _ => true;
     venv_exists := true;
     status := fun k => if (k =? n)%nat then code else 0%nat;
     output := fun _ => reply |}.

(** A machine with every tool on which every command succeeds. *)
Definition all_good (reply : string) : Env :=
  {| installed := fun _ => true;
     venv_exists := true;
     status := fun _ => 0%nat;
     output := fun _ => reply |}.

(** A machine without the AWS command line. *)
Definition no_aws : Env :=
  {| installed := fun cmd => negb (String.eqb cmd "aws");
     venv_exists := false;
     status := fun _ => 0%nat;
     output := fun _ => "" |}.

End DevScript.

(** * Properties *)

Import Client.

(** ** The client behaves as the retry machine *)

Ltac try_block_done :=
  eexists _, _; split; [reflexivity|];
  cbn -[N.ltb N.add extract_count config];
  repeat split; try reflexivity; lia.

(** What one pass through the [try] block does, whatever the network
    returns. *)
Lemma try_block_spec net attempt w :
  let p := net (length (fetch_calls w)) in
  exists w1 r,
    try_block net attempt w = (w1, r) /\
    clock w1 = (clock w + attempt_duration p)%N /\
    counterElement w1 = counterElement w /\
    fetch_calls w1 = (clock w, p) :: fetch_calls w /\
    timers_of (trace w1) =
      (clock w, RejectRequestTimeout, timeout_ms config) :: timers_of (trace w) /\
    match attempt_result p with
    | Normal c =>
        r = Normal tt /\
        animations w1 =
          {| anim_start := 0; anim_end := c; anim_duration := 1000;
             anim_startTime := performance_now w1 |} :: animations w
    | Throw e => r = Throw e /\ animations w1 = animations w
    | Pending => r = Pending /\ animations w1 = animations w
    end.
Proof.
  intros p.
  assert (Hp : net (length (fetch_calls_of (trace w))) = p) by reflexivity.
  clearbody p.
  unfold try_block, attempt_result, attempt_duration, json_duration,
    race_duration.
  unfold mbind, M_bind, console_log, fetch, timeout, await_race, await_json,
    lift, throw, updateCounter, animateValue.
  cbn -[N.ltb N.add extract_count config]. rewrite !Hp.
  destruct p as [latency [r|]|]; [| |try_block_done].
  - destruct (latency <? timeout_ms config)%N; [|try_block_done].
    destruct (ok r); cbn -[N.ltb N.add extract_count config]; [|try_block_done].
    destruct (body r); cbn -[N.ltb N.add extract_count config];
      [|try_block_done..].
    destruct (extract_count data) as [[]| |]; try_block_done.
  - destruct (latency <? timeout_ms config)%N; try_block_done.
Qed.

(** The body of [fetchVisitorCount], as the source has it. *)
Lemma fetchVisitorCount_eq net arg w :
  fetchVisitorCount net arg w =
  let attempt := attempt_or_default arg in
  match try_block net attempt w with
  | (w1, Normal _) => w1
  | (w1, Throw error) =>
      if less_than attempt (retryAttempts config) then
        fetchVisitorCount net (Some (plus_one attempt))
          (wait_before_retry (catch_prologue attempt error w1))
      else all_attempts_failed (catch_prologue attempt error w1)
  | (w1, Pending) => w1
  end.
Proof.
  rewrite fetchVisitorCount_equation_1. cbv zeta.
  destruct (try_block net (attempt_or_default arg) w) as [w1 [u|error|]];
    [reflexivity| |reflexivity].
  cbn [fetchVisitorCount_unfold_clause_1].
  destruct (inspect (less_than (attempt_or_default arg) (retryAttempts config)))
    as [[] e]; cbn [fetchVisitorCount_unfold_clause_1_clause_2];
    (etransitivity; [|symmetry; rewrite e; reflexivity]).
  - rewrite fetchVisitorCount_equation_1. reflexivity.
  - reflexivity.
Qed.

Lemma observe_try_block net attempt w :
  let p := net (length (obs_calls (observe w))) in
  exists w1 r,
    try_block net attempt w = (w1, r) /\
    match attempt_result p with
    | Normal c =>
        r = Normal tt /\
        observe w1 = after_success c (after_attempt p (observe w))
    | Throw e => r = Throw e /\ observe w1 = after_attempt p (observe w)
    | Pending => r = Pending /\ observe w1 = after_attempt p (observe w)
    end.
Proof.
  intros p. subst p. simpl.
  destruct (try_block_spec net attempt w)
    as (w1 & r & Htry & Hclock & Hel & Hcalls & Htimers & Hres).
  exists w1, r. split; [exact Htry|].
  destruct (attempt_result (net (length (fetch_calls w)))) as [c|e|];
    destruct Hres as [-> Hanim]; (split; [reflexivity|]);
    unfold observe, after_success, after_attempt, timeout_timers, delay_timers;
    simpl; rewrite Hanim, Hel, Hcalls, Htimers; unfold performance_now;
    rewrite Hclock; reflexivity.
Qed.

Lemma observe_wait_before_retry attempt error w :
  observe (wait_before_retry (catch_prologue attempt error w)) =
  after_delay (observe w).
Proof. reflexivity. Qed.

Lemma observe_all_attempts_failed attempt error w :
  observe (all_attempts_failed (catch_prologue attempt error w)) =
  after_failure (observe w).
Proof. reflexivity. Qed.

Lemma attempts_left_retry attempt :
  less_than attempt (retryAttempts config) = true ->
  attempts_left attempt = S (attempts_left (plus_one attempt)).
Proof.
  destruct attempt as [n|]; simpl; [|discriminate].
  intros H. apply Nat.ltb_lt in H. lia.
Qed.

Lemma attempts_left_stop attempt :
  less_than attempt (retryAttempts config) = false ->
  attempts_left attempt = O.
Proof.
  destruct attempt as [n|]; simpl; [|reflexivity].
  intros H. apply Nat.ltb_ge in H. lia.
Qed.

(** [fetchVisitorCount] changes the observations exactly as the retry
    machine does, started with the retries its argument allows. *)
Lemma fetchVisitorCount_machine net arg w :
  observe (fetchVisitorCount net arg w) =
  machine net (attempts_left (attempt_or_default arg)) (observe w).
Proof.
  remember (attempts_left (attempt_or_default arg)) as retries eqn:Hretries.
  revert arg w Hretries.
  induction retries as [|retries IH]; intros arg w Hretries;
    rewrite fetchVisitorCount_eq; cbv zeta;
    destruct (observe_try_block net (attempt_or_default arg) w)
      as (w1 & r & Htry & Hres);
    rewrite Htry; cbn [machine];
    destruct (attempt_result (net (length (obs_calls (observe w))))) as [c|e|];
    destruct Hres as [-> Hobs]; try exact Hobs.
  - destruct (less_than (attempt_or_default arg) (retryAttempts config)) eqn:Hlt.
    + apply attempts_left_retry in Hlt. congruence.
    + rewrite observe_all_attempts_failed, Hobs. reflexivity.
  - destruct (less_than (attempt_or_default arg) (retryAttempts config)) eqn:Hlt.
    + rewrite (IH (Some (plus_one (attempt_or_default arg)))).
      * rewrite observe_wait_before_retry, Hobs. reflexivity.
      * apply attempts_left_retry in Hlt. simpl. congruence.
    + apply attempts_left_stop in Hlt. congruence.
Qed.

(** The two ways the script starts the client: two retries when called
    directly, none when called as the listener. *)
Lemma initialize_machine net (loading : bool) w :
  observe (initialize net loading w) =
  machine net (if loading then 0 else 2) (observe w).
Proof.
  unfold initialize. destruct loading; apply fetchVisitorCount_machine.
Qed.

Lemma fetch_calls_observe w : fetch_calls w = obs_calls (observe w).
Proof. reflexivity. Qed.

Lemma delay_timers_observe w : delay_timers w = obs_delays (observe w).
Proof. reflexivity. Qed.

(** The observations of a run on a network whose first three promises all
    fail: one request when started as the listener, three when called
    directly. *)
Lemma machine_all_fail net (loading : bool) o :
  obs_calls o = [] ->
  (forall k, (k < 3)%nat -> attempt_fails (net k)) ->
  machine net (if loading then 0 else 2)%nat o =
  if loading then after_failure (after_attempt (net 0%nat) o)
  else
    after_failure
      (after_attempt (net 2%nat)
         (after_delay
            (after_attempt (net 1%nat)
               (after_delay (after_attempt (net 0%nat) o))))).
Proof.
  intros Hcalls Hfail.
  destruct (Hfail 0%nat) as [e0 H0]; [lia|].
  destruct (Hfail 1%nat) as [e1 H1]; [lia|].
  destruct (Hfail 2%nat) as [e2 H2]; [lia|].
  destruct loading; cbn [machine after_delay after_attempt obs_calls];
    rewrite Hcalls; cbn [length]; rewrite H0; [reflexivity|].
  rewrite H1, H2. reflexivity.
Qed.

(** C2. On an endpoint that fails persistently the client sends at most 3
    requests, waits between consecutive attempts and nowhere else, every
    wait is for 1000 ms, and each later request leaves exactly 1000 ms after
    the attempt before it failed (which is when its race, or the reading of
    its body, ended). *)
Theorem bounded_retry_with_fixed_delay net loading now element :
  (forall k, attempt_fails (net k)) ->
  let w := initialize net loading (initial_world now element) in
  (length (fetch_calls w) <= 3)%nat /\
  length (delay_timers w) = (length (fetch_calls w) - 1)%nat /\
  Forall (fun d : N * N => snd d = 1000%N) (delay_timers w) /\
  forall i sent p sent' p',
    rev (fetch_calls w) !! i = Some (sent, p) ->
    rev (fetch_calls w) !! S i = Some (sent', p') ->
    sent' = (sent + attempt_duration p + 1000)%N.
Proof.
  intros Hfail w. subst w.
  rewrite delay_timers_observe, fetch_calls_observe, initialize_machine.
  rewrite machine_all_fail by (reflexivity || auto).
  destruct loading; cbn.
  - repeat split; [lia|constructor|].
    intros i ? ? ? ? _ H2. destruct i; discriminate H2.
  - repeat split; [lia|repeat constructor|].
    intros [|[|[|i]]] ? ? ? ? H1 H2; cbn in *.
    + injection H1 as <- <-. injection H2 as <- <-. reflexivity.
    + injection H1 as <- <-. injection H2 as <- <-. reflexivity.
    + discriminate H2.
    + destruct i; discriminate H1.
Qed.

Lemma bounded_retry_with_fixed_delay_witness :
  let w := initialize always_500 false (initial_world 0 blank) in
  (length (fetch_calls w) <= 3)%nat /\
  length (delay_timers w) = (length (fetch_calls w) - 1)%nat /\
  Forall (fun d : N * N => snd d = 1000%N) (delay_timers w) /\
  forall i sent p sent' p',
    rev (fetch_calls w) !! i = Some (sent, p) ->
    rev (fetch_calls w) !! S i = Some (sent', p') ->
    sent' = (sent + attempt_duration p + 1000)%N.
Proof.
  apply (bounded_retry_with_fixed_delay always_500 false 0 blank).
  intros k. exists (HttpError 500). reflexivity.
Defined.

(** The time an attempt takes includes the reading of the body: when each
    body takes 300 ms after headers that took 50 ms and turns out not to be
    JSON, the requests leave 1350 ms apart. *)
Example slow_body_delays_the_retry :
  fetch_times (initialize garbled false (initial_world 0 blank)) =
  [0%N; 1350%N; 2700%N].
Proof. vm_compute. reflexivity. Qed.

Lemma counterElement_observe w : counterElement w = obs_element (observe w).
Proof. reflexivity. Qed.

Lemma animations_observe w : animations w = obs_animations (observe w).
Proof. reflexivity. Qed.

(** What a run leaves behind when every allowed attempt fails. *)
Lemma all_fail_run net (loading : bool) now element :
  (forall k, (k < 3)%nat -> attempt_fails (net k)) ->
  let w := initialize net loading (initial_world now element) in
  counterElement w = {| textContent := "Error"; color := "#ef4444" |} /\
  animations w = [] /\
  length (fetch_calls w) = (if loading then 1 else 3)%nat /\
  length (delay_timers w) = (length (fetch_calls w) - 1)%nat.
Proof.
  intros Hfail w. subst w.
  rewrite counterElement_observe, animations_observe, delay_timers_observe,
    fetch_calls_observe, initialize_machine.
  rewrite machine_all_fail by (reflexivity || assumption).
  destruct loading; repeat split.
Qed.

(** C3. When every allowed attempt has failed, the element shows the text
    'Error' in the colour #ef4444 whatever it showed before, no animation of
    a count was started, all allowed requests (three, or one when the client
    runs as the listener) and no more were sent, and no wait for a further
    attempt was started after the last failure. *)
Theorem exhausted_attempts_show_error net (loading : bool) now element :
  (forall k, (k < 3)%nat -> attempt_fails (net k)) ->
  let w := initialize net loading (initial_world now element) in
  counterElement w = {| textContent := "Error"; color := "#ef4444" |} /\
  animations w = [] /\
  length (fetch_calls w) = (if loading then 1 else 3)%nat /\
  length (delay_timers w) = (length (fetch_calls w) - 1)%nat.
Proof.
  intros Hfail. by apply all_fail_run.
Qed.

Lemma exhausted_attempts_show_error_witness :
  let w := initialize always_500 false (initial_world 0 blank) in
  counterElement w = {| textContent := "Error"; color := "#ef4444" |} /\
  animations w = [] /\
  length (fetch_calls w) = 3%nat /\
  length (delay_timers w) = (length (fetch_calls w) - 1)%nat.
Proof.
  apply (exhausted_attempts_show_error always_500 false 0 blank).
  intros k _. exists (HttpError 500). reflexivity.
Defined.

(** ** What a run logs *)

Lemma try_block_trace net attempt w :
  exists w1 r,
    try_block net attempt w = (w1, r) /\
    requests_of (trace w1) = (apiEndpoint config, "POST") :: requests_of (trace w) /\
    fetch_errors_of (trace w1) = fetch_errors_of (trace w) /\
    gave_up_of (trace w1) = gave_up_of (trace w).
Proof.
  unfold try_block.
  unfold mbind, M_bind, console_log, fetch, timeout, await_race, await_json,
    lift, throw, updateCounter, animateValue.
  cbn -[N.ltb N.add extract_count config].
  destruct (net (length (fetch_calls_of (trace w)))) as [latency [r|]|];
    [| |by eexists _, _].
  - destruct (latency <? timeout_ms config)%N; [|by eexists _, _].
    destruct (ok r); cbn -[N.ltb N.add extract_count config]; [|by eexists _, _].
    destruct (body r); cbn -[N.ltb N.add extract_count config];
      [|by eexists _, _..].
    destruct (extract_count data) as [[]| |]; by eexists _, _.
  - destruct (latency <? timeout_ms config)%N; by eexists _, _.
Qed.

Lemma hanging_after_attempt w1 t p calls :
  fetch_calls w1 = (t, p) :: calls ->
  hanging w1 = match attempt_result p with Pending => 1%nat | _ => 0%nat end.
Proof. unfold hanging. by intros ->. Qed.

Lemma fetchVisitorCount_log net arg w :
  let w' := fetchVisitorCount net arg w in
  fetch_errors_of (trace w') =
    rev (expected_errors net (attempts_left (attempt_or_default arg))
           (attempt_or_default arg) (length (fetch_calls w)))
    ++ fetch_errors_of (trace w) /\
  (length (fetch_errors_of (trace w')) + length (animations w') + hanging w'
     + length (fetch_calls w) =
   length (fetch_errors_of (trace w)) + length (animations w)
     + length (fetch_calls w'))%nat /\
  (gave_up_of (trace w') + length (animations w') + hanging w' =
   gave_up_of (trace w) + length (animations w) + 1)%nat.
Proof.
  remember (attempts_left (attempt_or_default arg)) as retries eqn:Hretries.
  revert arg w Hretries.
  induction retries as [|retries IH]; intros arg w Hretries; cbv zeta;
    rewrite fetchVisitorCount_eq; cbv zeta;
    destruct (try_block_spec net (attempt_or_default arg) w)
      as (w1 & r & Htry & _ & _ & Hcalls & _ & Hres);
    destruct (try_block_trace net (attempt_or_default arg) w)
      as (w1' & r' & Htry' & _ & Herr & Hgave);
    rewrite Htry in Htry'; injection Htry' as <- <-;
    rewrite Htry; cbn [expected_errors];
    pose proof (hanging_after_attempt w1 _ _ _ Hcalls) as Hhang;
    destruct (attempt_result (net (length (fetch_calls w)))) as [c|e|] eqn:Hp;
    destruct Hres as [-> Hanim];
    try (rewrite Herr, Hgave, Hanim, Hcalls, Hhang; cbn [rev app length];
         repeat split; lia);
    destruct (less_than (attempt_or_default arg) (retryAttempts config)) eqn:Hlt.
  - apply attempts_left_retry in Hlt. congruence.
  - assert (Hhang' : hanging (all_attempts_failed
                        (catch_prologue (attempt_or_default arg) e w1)) = 0%nat).
    { unfold hanging.
      change (fetch_calls (all_attempts_failed
                (catch_prologue (attempt_or_default arg) e w1)))
        with (fetch_calls w1).
      by rewrite Hcalls, Hp. }
    rewrite Hhang'.
    cbn [all_attempts_failed catch_prologue emit set_element trace animations
         fetch_errors_of gave_up_of fetch_calls fetch_calls_of rev app length].
    fold (fetch_calls w1). rewrite Herr, Hgave, Hanim, Hcalls. cbn [length].
    repeat split; lia.
  - specialize (IH (Some (plus_one (attempt_or_default arg)))
                  (wait_before_retry
                     (catch_prologue (attempt_or_default arg) e w1))).
    cbv zeta in IH.
    destruct IH as (IHerr & IHcount & IHgave).
    { apply attempts_left_retry in Hlt. simpl. congruence. }
    change (fetch_calls (wait_before_retry
              (catch_prologue (attempt_or_default arg) e w1)))
      with (fetch_calls w1) in IHerr, IHcount.
    change (animations (wait_before_retry
              (catch_prologue (attempt_or_default arg) e w1)))
      with (animations w1) in IHcount, IHgave.
    change (fetch_errors_of (trace (wait_before_retry
              (catch_prologue (attempt_or_default arg) e w1))))
      with ((attempt_or_default arg, e) :: fetch_errors_of (trace w1))
      in IHerr, IHcount.
    change (gave_up_of (trace (wait_before_retry
              (catch_prologue (attempt_or_default arg) e w1))))
      with (gave_up_of (trace w1)) in IHgave.
    rewrite Hcalls in IHerr, IHcount. cbn [length attempt_or_default default
      from_option id] in IHerr, IHcount.
    rewrite Herr, Hanim in *. rewrite Hgave in IHgave.
    split; [|split; lia].
    rewrite IHerr. cbn [rev]. by rewrite <- app_assoc.
  - apply attempts_left_stop in Hlt. congruence.
Qed.

Lemma expected_errors_lookup net retries attempt k i att e :
  expected_errors net retries attempt k !! i = Some (att, e) ->
  attempt_result (net (k + i)%nat) = Throw e /\
  att = Nat.iter i plus_one attempt.
Proof.
  revert attempt k i att e.
  induction retries as [|retries IH]; intros attempt k i att e;
    cbn [expected_errors];
    destruct (attempt_result (net k)) as [c|e'|] eqn:Hk;
    try (destruct i; discriminate).
  - destruct i as [|i]; [|destruct i; discriminate].
    intros [= <- <-]. rewrite Nat.add_0_r. auto.
  - destruct i as [|i].
    + intros [= <- <-]. rewrite Nat.add_0_r. auto.
    + intros Hi. cbn in Hi. apply IH in Hi as [Hres ->].
      replace (k + S i)%nat with (S k + i)%nat by lia.
      split; [exact Hres|]. by rewrite Nat.iter_succ_r.
Qed.

Lemma iter_plus_one_event i : Nat.iter i plus_one AttemptEvent = AttemptEvent.
Proof. induction i as [|i IH]; [reflexivity|]. by rewrite Nat.iter_succ, IH. Qed.

Lemma iter_plus_one_number i n :
  Nat.iter i plus_one (AttemptNumber n) = AttemptNumber (n + i).
Proof.
  induction i as [|i IH]; [cbn; by rewrite Nat.add_0_r|].
  rewrite Nat.iter_succ, IH. cbn [plus_one]. f_equal. lia.
Qed.

(** ** Timeouts *)

Lemma machine_timeouts net retries o :
  obs_timeouts o = map (fun call => (fst call, 5000%N)) (obs_calls o) ->
  obs_timeouts (machine net retries o) =
  map (fun call => (fst call, 5000%N)) (obs_calls (machine net retries o)).
Proof.
  revert o. induction retries as [|retries IH]; intros o Ho; cbn [machine];
    destruct (attempt_result (net (length (obs_calls o)))); cbn;
    rewrite ?Ho; try reflexivity.
  apply IH. cbn. rewrite Ho. reflexivity.
Qed.

(** Only the verdict of each attempt matters to what the machine leaves
    behind, times apart. *)
Lemma machine_untimed net net' retries o o' :
  (forall k, verdict (net k) = verdict (net' k)) ->
  untimed o = untimed o' ->
  untimed (machine net retries o) = untimed (machine net' retries o').
Proof.
  intros Hnet. revert o o'.
  induction retries as [|retries IH]; intros o o' Ho; cbn [machine];
    injection Ho as Hlen Hdelays Hel Hanim;
    rewrite <- Hlen; specialize (Hnet (length (obs_calls o)));
    unfold verdict in Hnet;
    destruct (attempt_result (net (length (obs_calls o))));
    destruct (attempt_result (net' (length (obs_calls o))));
    try discriminate Hnet; try injection Hnet as ->;
    try (unfold untimed; cbn; congruence).
  apply IH. unfold untimed; cbn. congruence.
Qed.

Lemma timer_first_result p :
  timer_settles_first p ->
  attempt_result p = Throw RequestTimeout /\ race_duration p = 5000%N /\
  attempt_duration p = 5000%N.
Proof.
  unfold attempt_duration, json_duration.
  destruct p as [latency s|]; cbn -[N.ltb]; [|repeat split; reflexivity].
  intros H. apply N.ltb_ge in H. rewrite H. cbn [andb].
  destruct s; repeat split; reflexivity.
Qed.

Lemma timeout_timers_observe w : timeout_timers w = obs_timeouts (observe w).
Proof. reflexivity. Qed.

Lemma http_error_result latency r :
  (latency < timeout_ms config)%N -> ok r = false ->
  attempt_result (SettlesAfter latency (Fulfilled r)) = Throw (HttpError (status r)) /\
  attempt_duration (SettlesAfter latency (Fulfilled r)) = latency.
Proof.
  intros Hlat Hok.
  unfold attempt_result, attempt_duration, json_duration, race_duration.
  apply N.ltb_lt in Hlat. rewrite Hlat, Hok. cbn [negb andb].
  split; [reflexivity|apply N.add_0_r].
Qed.

Lemma departure_ext net net' start k :
  (forall j, (j < k)%nat -> net j = net' j) ->
  departure net start k = departure net' start k.
Proof.
  induction k as [|k IH]; intros Hnet; [reflexivity|].
  cbn [departure]. rewrite IH, (Hnet k) by (intros; try apply Hnet; lia).
  reflexivity.
Qed.

(** The attempt number [k] of a run, when it is made and fails: when its
    request leaves and what follows it. *)
Lemma machine_failed_attempt net (loading : bool) o k :
  obs_calls o = [] -> obs_delays o = [] -> obs_animations o = [] ->
  (k <= if loading then 0 else 2)%nat ->
  (forall j, (j <= k)%nat -> attempt_fails (net j)) ->
  let o' := machine net (if loading then 0 else 2)%nat o in
  let sent := departure net (obs_clock o) k in
  rev (obs_calls o') !! k = Some (sent, net k) /\
  ((k < if loading then 0 else 2)%nat ->
   rev (obs_delays o') !! k =
     Some ((sent + attempt_duration (net k))%N, 1000%N) /\
   rev (obs_calls o') !! S k =
     Some ((sent + attempt_duration (net k) + 1000)%N, net (S k))) /\
  (k = (if loading then 0 else 2)%nat ->
   obs_element o' = error_element /\ obs_animations o' = [] /\
   length (obs_calls o') = S k).
Proof.
  intros Hcalls Hdelays Hanim Hk Hfail o' sent. subst o' sent.
  assert (H0 : exists e, attempt_result (net 0%nat) = Throw e)
    by (apply Hfail; lia).
  assert (H1 : (k < 1)%nat \/ exists e, attempt_result (net 1%nat) = Throw e).
  { destruct (decide (k < 1)%nat); [by left|right]. apply Hfail. lia. }
  assert (H2 : (k < 2)%nat \/ exists e, attempt_result (net 2%nat) = Throw e).
  { destruct (decide (k < 2)%nat); [by left|right]. apply Hfail. lia. }
  destruct H0 as [e0 H0].
  destruct loading; cbn [machine after_delay after_attempt obs_calls];
    rewrite Hcalls; cbn [length]; rewrite H0.
  - replace k with 0%nat by lia.
    cbn [after_failure after_attempt obs_calls obs_delays obs_element
         obs_animations obs_clock rev app departure].
    rewrite Hcalls, Hanim. repeat split; lia.
  - destruct k as [|[|[|k]]]; [| | |lia].
    + destruct (attempt_result (net 1%nat)) eqn:E1;
        try (destruct (attempt_result (net 2%nat)) eqn:E2);
        cbn [after_failure after_success after_attempt after_delay obs_calls
             obs_delays obs_element obs_animations obs_clock rev app departure];
        rewrite ?Hcalls, ?Hdelays; cbn [rev app];
        (split; [reflexivity|]); (split; [|intros; lia]); intros _;
        split; reflexivity.
    + destruct H1 as [H1|[e1 H1]]; [lia|]. rewrite H1.
      destruct (attempt_result (net 2%nat)) eqn:E2;
        cbn [after_failure after_success after_attempt after_delay obs_calls
             obs_delays obs_element obs_animations obs_clock rev app departure];
        rewrite ?Hcalls, ?Hdelays; cbn [rev app];
        (split; [reflexivity|]); (split; [|intros; lia]); intros _;
        split; reflexivity.
    + destruct H1 as [H1|[e1 H1]]; [lia|]. rewrite H1.
      destruct H2 as [H2|[e2 H2]]; [lia|]. rewrite H2.
      cbn [after_failure after_success after_attempt after_delay obs_calls
           obs_delays obs_element obs_animations obs_clock rev app departure].
      rewrite Hcalls, Hanim. cbn [rev app].
      split; [reflexivity|]. split; [intros; lia|]. intros _.
      repeat split.
Qed.

(** The entry that line 63 writes for the attempt number [k], when the
    attempts before it fail as well. *)
Lemma expected_errors_reach net retries attempt k0 k e :
  (k <= retries)%nat ->
  (forall j, (j < k)%nat -> attempt_fails (net (k0 + j)%nat)) ->
  attempt_result (net (k0 + k)%nat) = Throw e ->
  expected_errors net retries attempt k0 !! k =
    Some (Nat.iter k plus_one attempt, e).
Proof.
  revert retries attempt k0.
  induction k as [|k IH]; intros retries attempt k0 Hk Hfail He.
  - rewrite Nat.add_0_r in He.
    destruct retries; cbn [expected_errors]; rewrite He; reflexivity.
  - destruct retries as [|retries]; [lia|].
    destruct (Hfail 0%nat) as [e0 He0]; [lia|]. rewrite Nat.add_0_r in He0.
    cbn [expected_errors]. rewrite He0.
    change (expected_errors net retries (plus_one attempt) (S k0) !! k =
            Some (Nat.iter (S k) plus_one attempt, e)).
    rewrite Nat.iter_succ_r. apply IH; [lia| |].
    + intros j Hj. replace (S k0 + j)%nat with (k0 + S j)%nat by lia.
      apply Hfail. lia.
    + replace (S k0 + k)%nat with (k0 + S k)%nat by lia. exact He.
Qed.

(** The entry of line 63 for the attempt number [k] of a run. *)
Lemma initialize_logs_failure net (loading : bool) now element k e :
  (k <= if loading then 0 else 2)%nat ->
  (forall j, (j < k)%nat -> attempt_fails (net j)) ->
  attempt_result (net k) = Throw e ->
  rev (fetch_errors_of (trace (initialize net loading (initial_world now element))))
    !! k =
  Some (if loading then AttemptEvent else AttemptNumber (S k), e).
Proof.
  intros Hk Hfail He. unfold initialize.
  destruct loading;
    match goal with
    | |- context [fetchVisitorCount net ?arg ?w0] =>
        destruct (fetchVisitorCount_log net arg w0) as (Herr & _ & _)
    end;
    cbn [initial_world trace fetch_errors_of fetch_calls fetch_calls_of length]
      in Herr;
    rewrite app_nil_r in Herr; rewrite Herr, rev_involutive;
    rewrite (expected_errors_reach net _ _ 0 k e) by assumption.
  - by rewrite iter_plus_one_event.
  - cbn [attempt_or_default default]. by rewrite (iter_plus_one_number k 1).
Qed.

(** C4. Every pass through the [try] block, on any network, calls fetch and
    at the same instant sets a timer of 5000 ms; when that timer settles
    before the fetch, the block is left after exactly 5000 ms by the throw
    of 'Request timeout', with the page untouched.  In a run, an attempt
    that times out is then handled as an attempt answered with an HTTP
    error status is: line 63 logs the error with the same value of
    [attempt]; when a retry is allowed, the wait of 1000 ms starts at once
    and the next request leaves when it ends; when none is allowed, the run
    ends with the error indicator.  Times apart, the two runs leave the same
    behind: as many requests, the same waits, the same element, the same
    count animated. *)
Theorem timeout_handled_as_http_error net (loading : bool) now element k r latency :
  (k <= if loading then 0 else 2)%nat ->
  (forall j, (j < k)%nat -> attempt_fails (net j)) ->
  timer_settles_first (net k) ->
  ok r = false ->
  (latency < timeout_ms config)%N ->
  let net' := <[k := SettlesAfter latency (Fulfilled r)]> net in
  let w := initialize net loading (initial_world now element) in
  let w' := initialize net' loading (initial_world now element) in
  let attempt := if loading then AttemptEvent else AttemptNumber (S k) in
  let sent := departure net now k in
  (forall any_net att w0,
     let p := any_net (length (fetch_calls w0)) in
     let w1 := fst (try_block any_net att w0) in
     fetch_calls w1 = (clock w0, p) :: fetch_calls w0 /\
     timeout_timers w1 = (clock w0, 5000%N) :: timeout_timers w0 /\
     (timer_settles_first p ->
      snd (try_block any_net att w0) = Throw RequestTimeout /\
      clock w1 = (clock w0 + 5000)%N /\
      animations w1 = animations w0 /\
      counterElement w1 = counterElement w0)) /\
  timeout_timers w = map (fun call => (fst call, 5000%N)) (fetch_calls w) /\
  (rev (fetch_calls w) !! k = Some (sent, net k) /\
   rev (fetch_calls w') !! k = Some (sent, net' k)) /\
  (rev (fetch_errors_of (trace w)) !! k = Some (attempt, RequestTimeout) /\
   rev (fetch_errors_of (trace w')) !! k =
     Some (attempt, HttpError (status r))) /\
  ((k < if loading then 0 else 2)%nat ->
   (rev (delay_timers w) !! k = Some ((sent + 5000)%N, 1000%N) /\
    rev (fetch_calls w) !! S k = Some ((sent + 5000 + 1000)%N, net (S k))) /\
   (rev (delay_timers w') !! k = Some ((sent + latency)%N, 1000%N) /\
    rev (fetch_calls w') !! S k =
      Some ((sent + latency + 1000)%N, net (S k)))) /\
  (k = (if loading then 0 else 2)%nat ->
   (counterElement w = error_element /\ animations w = [] /\
    length (fetch_calls w) = S k) /\
   (counterElement w' = error_element /\ animations w' = [] /\
    length (fetch_calls w') = S k)) /\
  untimed (observe w) = untimed (observe w').
Proof.
  intros Hk Hfail Htimer Hok Hlat net' w w' attempt sent.
  destruct (timer_first_result _ Htimer) as (Hres & _ & Hdur).
  assert (Hnet' : forall j, j <> k -> net' j = net j).
  { intros j Hj. unfold net'. by rewrite fn_lookup_insert_ne. }
  assert (Hnet'k : net' k = SettlesAfter latency (Fulfilled r)).
  { unfold net'. by rewrite fn_lookup_insert. }
  destruct (http_error_result latency r Hlat Hok) as [Hres' Hdur'].
  rewrite <- Hnet'k in Hres', Hdur'.
  assert (Hfail' : forall j, (j < k)%nat -> attempt_fails (net' j)).
  { intros j Hj. rewrite Hnet' by lia. by apply Hfail. }
  assert (Hsent : departure net' now k = sent).
  { apply departure_ext. intros j Hj. apply Hnet'. lia. }
  assert (Hall : forall j, (j <= k)%nat -> attempt_fails (net j)).
  { intros j Hj. destruct (decide (j = k)) as [->|Hne];
      [by exists RequestTimeout|apply Hfail; lia]. }
  assert (Hall' : forall j, (j <= k)%nat -> attempt_fails (net' j)).
  { intros j Hj. destruct (decide (j = k)) as [->|Hne];
      [by eexists|apply Hfail'; lia]. }
  destruct (machine_failed_attempt net loading
              (observe (initial_world now element)) k
              eq_refl eq_refl eq_refl Hk Hall) as (Hcall & Hnext & Hlast).
  destruct (machine_failed_attempt net' loading
              (observe (initial_world now element)) k
              eq_refl eq_refl eq_refl Hk Hall') as (Hcall' & Hnext' & Hlast').
  rewrite <- initialize_machine in Hcall, Hnext, Hlast, Hcall', Hnext', Hlast'.
  change (obs_clock (observe (initial_world now element))) with now
    in Hcall, Hnext, Hcall', Hnext'.
  rewrite Hsent in Hcall', Hnext'. rewrite Hdur in Hnext. rewrite Hdur' in Hnext'.
  fold w in Hcall, Hnext, Hlast. fold w' in Hcall', Hnext', Hlast'.
  fold sent in Hcall, Hnext.
  split; [|split; [|split; [|split; [|split; [|split]]]]].
  - intros any_net att w0 p w1. subst p w1.
    destruct (try_block_spec any_net att w0)
      as (w1 & res & Htry & Hclock & Hel & Hcalls & Htimers & Hr).
    rewrite Htry. cbn [fst snd].
    split; [exact Hcalls|].
    split; [unfold timeout_timers; by rewrite Htimers|].
    intros Hfirst.
    destruct (timer_first_result _ Hfirst) as (Hres0 & _ & Hdur0).
    rewrite Hres0 in Hr. rewrite Hdur0 in Hclock. destruct Hr as [-> Hanim].
    auto.
  - subst w. rewrite timeout_timers_observe, fetch_calls_observe, initialize_machine.
    apply machine_timeouts. reflexivity.
  - split; [exact Hcall|exact Hcall'].
  - split; by apply initialize_logs_failure.
  - intros Hlt. destruct (Hnext Hlt) as [Hd Hc]. destruct (Hnext' Hlt) as [Hd' Hc'].
    rewrite Hnet' in Hc' by lia.
    split; split; assumption.
  - intros Heq. split; [exact (Hlast Heq)|exact (Hlast' Heq)].
  - subst w w'. rewrite !initialize_machine. apply machine_untimed; [|reflexivity].
    intros j. unfold verdict. destruct (decide (j = k)) as [->|Hne].
    + rewrite Hres, Hres'. reflexivity.
    + by rewrite Hnet'.
Qed.

Lemma timeout_handled_as_http_error_witness :
  let r := {| status := 503; body := MalformedBody; body_latency := 0 |} in
  let net' := <[1%nat := SettlesAfter 40 (Fulfilled r)]> silent in
  let w := initialize silent false (initial_world 0 blank) in
  let w' := initialize net' false (initial_world 0 blank) in
  (forall any_net att w0,
     let p := any_net (length (fetch_calls w0)) in
     let w1 := fst (try_block any_net att w0) in
     fetch_calls w1 = (clock w0, p) :: fetch_calls w0 /\
     timeout_timers w1 = (clock w0, 5000%N) :: timeout_timers w0 /\
     (timer_settles_first p ->
      snd (try_block any_net att w0) = Throw RequestTimeout /\
      clock w1 = (clock w0 + 5000)%N /\
      animations w1 = animations w0 /\
      counterElement w1 = counterElement w0)) /\
  timeout_timers w = map (fun call => (fst call, 5000%N)) (fetch_calls w) /\
  (rev (fetch_calls w) !! 1%nat = Some (6000%N, silent 1%nat) /\
   rev (fetch_calls w') !! 1%nat = Some (6000%N, net' 1%nat)) /\
  (rev (fetch_errors_of (trace w)) !! 1%nat =
     Some (AttemptNumber 2, RequestTimeout) /\
   rev (fetch_errors_of (trace w')) !! 1%nat =
     Some (AttemptNumber 2, HttpError 503)) /\
  ((rev (delay_timers w) !! 1%nat = Some (11000%N, 1000%N) /\
    rev (fetch_calls w) !! 2%nat = Some (12000%N, silent 2%nat)) /\
   (rev (delay_timers w') !! 1%nat = Some (6040%N, 1000%N) /\
    rev (fetch_calls w') !! 2%nat = Some (7040%N, silent 2%nat))) /\
  untimed (observe w) = untimed (observe w').
Proof.
  destruct (timeout_handled_as_http_error silent false 0 blank 1
              {| status := 503; body := MalformedBody; body_latency := 0 |} 40)
    as (Hblock & Htimers & Hcalls & Herrors & Hnext & _ & Hsame).
  - simpl. lia.
  - intros j Hj. exists RequestTimeout. reflexivity.
  - exact I.
  - reflexivity.
  - reflexivity.
  - split; [exact Hblock|]. split; [exact Htimers|]. split; [exact Hcalls|].
    split; [exact Herrors|]. split; [|exact Hsame].
    apply Hnext. simpl. lia.
Defined.

(** ** Reading the count from the body *)

Lemma extract_count_cases data :
  match data with
  | JsUndefined | JsNull => extract_count data = Throw NullPropertyAccess
  | _ => extract_count data = Normal (first_truthy data)
  end.
Proof.
  destruct data; try reflexivity.
  unfold extract_count, first_truthy, field, get, or_else. cbn.
  destruct (truthy (default JsUndefined (props !! "count"))); [reflexivity|].
  destruct (truthy (default JsUndefined (props !! "visitor_count"))); reflexivity.
Qed.

Lemma first_truthy_is_field data :
  Exists (fun name => first_truthy data = field data name) accepted_names.
Proof.
  unfold first_truthy, accepted_names. cbv zeta.
  destruct (truthy (field data "count")); [by constructor|].
  destruct (truthy (field data "visitor_count")).
  - by constructor 2; constructor.
  - by do 2 constructor 2; constructor.
Qed.

Lemma no_numeric_count_result data :
  no_numeric_count data ->
  exists e,
    match extract_count data with
    | Throw e' => Throw e'
    | Pending => Pending
    | Normal (JsNumber c) => Normal c
    | Normal _ => Throw InvalidCountFormat
    end = Throw e.
Proof.
  intros Hnone.
  pose proof (extract_count_cases data) as Hcases.
  assert (Hnot : is_number (first_truthy data) = false).
  { destruct (proj1 (Exists_exists _ _) (first_truthy_is_field data))
      as (name & Hin & ->).
    exact (proj1 (Forall_forall _ _) Hnone name Hin). }
  destruct data; rewrite Hcases; try (by eexists);
    destruct (first_truthy _); try discriminate Hnot; by eexists.
Qed.

Lemma no_numeric_count_fails latency r data :
  body r = JsonBody data ->
  no_numeric_count data ->
  attempt_fails (SettlesAfter latency (Fulfilled r)).
Proof.
  intros Hbody Hnone. unfold attempt_fails, attempt_result.
  destruct (latency <? timeout_ms config)%N; [|by eexists].
  destruct (negb (ok r)); [by eexists|].
  rewrite Hbody. by apply no_numeric_count_result.
Qed.

Lemma nonzero_truthy q : ~ (q == 0)%Q -> truthy (JsNumber q) = true.
Proof.
  intros Hq. simpl. destruct (Qeq_bool q 0) eqn:E; [|reflexivity].
  apply Qeq_bool_iff in E. contradiction.
Qed.



(** ** A count of zero *)

Lemma answered_result latency r data :
  (latency < timeout_ms config)%N -> ok r = true -> body r = JsonBody data ->
  attempt_result (SettlesAfter latency (Fulfilled r)) =
  match extract_count data with
  | Throw e => Throw e
  | Pending => Pending
  | Normal (JsNumber c) => Normal c
  | Normal _ => Throw InvalidCountFormat
  end.
Proof.
  intros Hlat Hok Hbody. unfold attempt_result. apply N.ltb_lt in Hlat.
  rewrite Hlat, Hok, Hbody. reflexivity.
Qed.

Lemma zero_falsy c : (c == 0)%Q -> truthy (JsNumber c) = false.
Proof.
  intros Hc. simpl. apply Qeq_bool_iff in Hc. rewrite Hc. reflexivity.
Qed.

Lemma zero_or_not_number_truthy v :
  zero_or_not_number v -> truthy v = true -> is_number v = false.
Proof.
  destruct v; try reflexivity. intros Hz Ht. apply zero_falsy in Hz. congruence.
Qed.

(** The counterexample to C9: a response whose body carries the count 0 under
    visitorCount is accepted at the first attempt, and the display settles
    at 0. *)
Lemma zero_under_visitorCount_is_shown :
  let w := initialize zero_visitorCount false (initial_world 0 blank) in
  attempt_result (zero_visitorCount 0%nat) = Normal 0%Q /\
  ~ attempt_fails (zero_visitorCount 0%nat) /\
  length (fetch_calls w) = 1%nat /\
  exists a, animations w = [a] /\ anim_end a = 0%Q /\
    run_frames Locale.toLocaleString a [1100%Q] (counterElement w) =
    ({| textContent := "0"; color := "" |}, false).
Proof.
  split; [reflexivity|].
  split; [intros [e He]; discriminate He|].
  split; [vm_compute; reflexivity|].
  eexists. split; [vm_compute; reflexivity|]. split; vm_compute; reflexivity.
Qed.

(** C9, as amended. For a success response that arrives in time, a count of
    zero comes out of the body exactly when it stands under visitorCount
    and the members count and visitor_count are falsy; and a body in which
    no accepted name holds a number other than zero, and visitorCount holds
    no number at all, is invalid: the attempt fails into the retry
    logic. *)
Theorem zero_count_only_under_visitorCount latency r data :
  (latency < timeout_ms config)%N ->
  ok r = true ->
  body r = JsonBody data ->
  (forall c, (c == 0)%Q ->
     attempt_result (SettlesAfter latency (Fulfilled r)) = Normal c <->
     truthy (field data "count") = false /\
     truthy (field data "visitor_count") = false /\
     field data "visitorCount" = JsNumber c) /\
  (Forall (fun name => zero_or_not_number (field data name)) accepted_names ->
   is_number (field data "visitorCount") = false ->
   attempt_fails (SettlesAfter latency (Fulfilled r))).
Proof.
  intros Hlat Hok Hbody. unfold attempt_fails.
  rewrite (answered_result latency r data Hlat Hok Hbody).
  pose proof (extract_count_cases data) as Hcases.
  split.
  - intros c Hc. apply zero_falsy in Hc. split.
    + intros Hres.
      assert (Hfirst : first_truthy data = JsNumber c).
      { destruct data; rewrite Hcases in Hres; try discriminate Hres;
          destruct (first_truthy _); try discriminate Hres; congruence. }
      unfold first_truthy in Hfirst. cbv zeta in Hfirst.
      destruct (truthy (field data "count")) eqn:H1; [congruence|].
      destruct (truthy (field data "visitor_count")) eqn:H2; [congruence|].
      auto.
    + intros (H1 & H2 & H3).
      assert (Hfirst : first_truthy data = JsNumber c).
      { unfold first_truthy. cbv zeta. rewrite H1, H2. exact H3. }
      destruct data; simpl in H3; try discriminate H3;
        rewrite Hcases, Hfirst; reflexivity.
  - intros Hall Hlast.
    assert (Hnot : is_number (first_truthy data) = false).
    { unfold accepted_names in Hall.
      apply Forall_cons in Hall as [Hc Hall].
      apply Forall_cons in Hall as [Hv _].
      unfold first_truthy. cbv zeta.
      destruct (truthy (field data "count")) eqn:H1;
        [by apply zero_or_not_number_truthy|].
      destruct (truthy (field data "visitor_count")) eqn:H2;
        [by apply zero_or_not_number_truthy|].
      exact Hlast. }
    destruct data; rewrite Hcases; try (by eexists);
      destruct (first_truthy _); try discriminate Hnot; by eexists.
Qed.

Lemma zero_count_only_under_visitorCount_witness :
  let data := JsObject {[ "count" := JsNumber 0 ]} in
  let r := {| status := 200; body := JsonBody data; body_latency := 0 |} in
  (forall c, (c == 0)%Q ->
     attempt_result (SettlesAfter 100 (Fulfilled r)) = Normal c <->
     truthy (field data "count") = false /\
     truthy (field data "visitor_count") = false /\
     field data "visitorCount" = JsNumber c) /\
  (Forall (fun name => zero_or_not_number (field data name)) accepted_names ->
   is_number (field data "visitorCount") = false ->
   attempt_fails (SettlesAfter 100 (Fulfilled r))).
Proof.
  apply (zero_count_only_under_visitorCount 100
           {| status := 200; body := JsonBody (JsObject {[ "count" := JsNumber 0 ]});
              body_latency := 0 |}
           (JsObject {[ "count" := JsNumber 0 ]}));
    reflexivity.
Defined.

(** The body {count: 0} of the claim is indeed invalid. *)
Lemma count_zero_alone_fails :
  attempt_fails (answers 100 (JsObject {[ "count" := JsNumber 0 ]})).
Proof. exists InvalidCountFormat. reflexivity. Qed.

(** ** One request at a time? *)

(** The counterexample to C7: against a server that needs 8 seconds for an
    answer the first request times out after 5 seconds and is not cancelled;
    the second request leaves at 6 seconds, so that at 6.5 seconds two
    requests are in flight. *)
Lemma timed_out_request_stays_in_flight :
  let w := initialize slow false (initial_world 0 blank) in
  fetch_times w = [0%N; 6000%N; 12000%N] /\
  in_flight w 6500 = 2%nat.
Proof. split; vm_compute; reflexivity. Qed.

Lemma awaited_call_true t sent p :
  awaited_call t (sent, p) = true ->
  (sent <= t)%N /\
  (attempt_result p = Pending \/ (t < sent + attempt_duration p)%N).
Proof.
  unfold awaited_call. intros H. apply andb_true_iff in H as [H1 H2].
  apply N.leb_le in H1. split; [exact H1|].
  destruct (attempt_result p); [right|right|by left]; by apply N.ltb_lt.
Qed.

Ltac awaited_facts :=
  repeat match goal with
         | H : awaited_call _ (_, _) = true |- _ =>
             apply awaited_call_true in H as [? [?|?]]
         end.

Ltac lookup_cases i H1 H2 :=
  destruct i as [|[|[|i]]]; cbn in H1, H2;
  try discriminate H1; try discriminate H2;
  try (destruct i; discriminate H1); try (destruct i; discriminate H2);
  try (injection H1 as <- <-; injection H2 as <- <-).

Lemma machine_sequential net (loading : bool) o :
  obs_calls o = [] ->
  let calls := obs_calls (machine net (if loading then 0 else 2)%nat o) in
  (forall t,
     (length (filter (fun call => awaited_call t call = true) calls) <= 1)%nat) /\
  forall i sent p sent' p',
    rev calls !! i = Some (sent, p) ->
    rev calls !! S i = Some (sent', p') ->
    attempt_fails p /\ sent' = (sent + attempt_duration p + 1000)%N.
Proof.
  intros Hcalls calls. subst calls. unfold attempt_fails.
  destruct loading; cbn [machine after_delay after_attempt obs_calls];
    rewrite Hcalls; cbn [length];
    destruct (attempt_result (net 0%nat)) eqn:H0;
    try (destruct (attempt_result (net 1%nat)) eqn:H1);
    try (destruct (attempt_result (net 2%nat)) eqn:H2);
    cbn [obs_calls after_success after_failure after_attempt after_delay
         obs_clock];
    rewrite ?Hcalls; cbn [rev app];
    split.
  all: try (intros t; rewrite ?filter_cons, ?filter_nil; repeat case_decide;
            cbn [length]; awaited_facts; first [congruence|lia]).
  all: intros i sent p sent' p' Hi Hi'; lookup_cases i Hi Hi'.
  all: split; eauto.
Qed.

(** C7, as amended. Attempts are strictly sequential: at every instant at
    most one attempt is being awaited, and each later request leaves exactly
    1000 ms after the attempt before it has failed. *)
Theorem attempts_are_sequential net (loading : bool) now element :
  let w := initialize net loading (initial_world now element) in
  (forall t, (awaited w t <= 1)%nat) /\
  forall i sent p sent' p',
    rev (fetch_calls w) !! i = Some (sent, p) ->
    rev (fetch_calls w) !! S i = Some (sent', p') ->
    attempt_fails p /\ sent' = (sent + attempt_duration p + 1000)%N.
Proof.
  intros w. subst w. unfold awaited.
  rewrite fetch_calls_observe, initialize_machine.
  by apply machine_sequential.
Qed.

(** ** The text of a number in the en-US locale *)

Lemma append_assoc (a b c : string) : (a +:+ b) +:+ c = a +:+ b +:+ c.
Proof.
  induction a as [|x a IH]; [reflexivity|].
  change (String x ((a +:+ b) +:+ c) = String x (a +:+ b +:+ c)).
  by rewrite IH.
Qed.

Lemma append_nil_r (a : string) : a +:+ "" = a.
Proof.
  induction a as [|x a IH]; [reflexivity|].
  change (String x (a +:+ "") = String x a). by rewrite IH.
Qed.

Lemma pretty_N_unfold (n : N) :
  pretty n = if decide (n = 0%N) then "0" else pretty_N_go n "".
Proof. reflexivity. Qed.

Lemma digit_not_comma x : String.eqb (String (pretty_N_char x) "") "," = false.
Proof.
  destruct x as [|p]; [reflexivity|].
  do 4 (destruct p as [p|p|]; try reflexivity).
Qed.

Lemma ungroup_app s t : Locale.ungroup (s +:+ t) = Locale.ungroup s +:+ Locale.ungroup t.
Proof.
  induction s as [|c s IH]; [reflexivity|].
  change (Locale.ungroup (String c (s +:+ t)) =
          Locale.ungroup (String c s) +:+ Locale.ungroup t).
  cbn [Locale.ungroup]. destruct (String.eqb (String c "") ","); [exact IH|].
  change (String c (Locale.ungroup (s +:+ t)) =
          String c (Locale.ungroup s +:+ Locale.ungroup t)).
  by rewrite IH.
Qed.

Lemma pretty_N_go_app x s t : pretty_N_go x (s +:+ t) = pretty_N_go x s +:+ t.
Proof.
  revert s. induction (N.lt_wf_0 x) as [x _ IH]; intros s.
  destruct (decide (x = 0%N)) as [->|Hx]; [by rewrite !pretty_N_go_0|].
  rewrite (pretty_N_go_step x (s +:+ t)), (pretty_N_go_step x s) by lia.
  apply (IH _ (N.div_lt x 10 ltac:(lia) eq_refl) (String _ s)).
Qed.

Lemma ungroup_pretty_N_go x s :
  Locale.ungroup (pretty_N_go x s) = pretty_N_go x (Locale.ungroup s).
Proof.
  revert s. induction (N.lt_wf_0 x) as [x _ IH]; intros s.
  destruct (decide (x = 0%N)) as [->|Hx]; [by rewrite !pretty_N_go_0|].
  rewrite (pretty_N_go_step x s), (pretty_N_go_step x (Locale.ungroup s)) by lia.
  rewrite (IH _ (N.div_lt x 10 ltac:(lia) eq_refl)).
  cbn [Locale.ungroup]. by rewrite digit_not_comma.
Qed.

Lemma ungroup_pretty (n : N) : Locale.ungroup (pretty n) = pretty n.
Proof.
  rewrite pretty_N_unfold. destruct (decide (n = 0%N)); [reflexivity|].
  apply ungroup_pretty_N_go.
Qed.

Ltac div_lia := zify; Z.to_euclidean_division_equations; lia.

(** The three digits of a number below 1000. *)
Lemma pad3_digits m :
  (m < 1000)%N ->
  Locale.pad3 m =
  String (pretty_N_char (m / 100)) (String (pretty_N_char (m / 10 mod 10))
    (String (pretty_N_char (m mod 10)) "")).
Proof.
  intros Hm. unfold Locale.pad3. cbv zeta. rewrite pretty_N_unfold.
  destruct (decide (m = 0%N)) as [->|H0]; [reflexivity|].
  rewrite pretty_N_go_step by div_lia.
  destruct (decide (m / 10 = 0)%N) as [E1|E1].
  { rewrite E1, pretty_N_go_0. cbn [String.length].
    replace (m / 100)%N with 0%N by div_lia. reflexivity. }
  rewrite pretty_N_go_step by div_lia.
  destruct (decide (m / 10 / 10 = 0)%N) as [E2|E2].
  { rewrite E2, pretty_N_go_0. cbn [String.length].
    replace (m / 100)%N with 0%N by div_lia. reflexivity. }
  rewrite pretty_N_go_step by div_lia.
  replace (m / 10 / 10 / 10)%N with 0%N by div_lia.
  rewrite pretty_N_go_0. cbn [String.length].
  replace (m / 10 / 10 mod 10)%N with (m / 100)%N by div_lia. reflexivity.
Qed.

Lemma pretty_thousands n :
  (1000 <= n)%N ->
  pretty n = pretty (n / 1000)%N +:+ Locale.pad3 (n mod 1000).
Proof.
  intros Hn. rewrite pad3_digits by (apply N.mod_lt; lia).
  rewrite !pretty_N_unfold.
  destruct (decide (n = 0%N)); [div_lia|].
  destruct (decide (n / 1000 = 0)%N); [div_lia|].
  rewrite <- pretty_N_go_app. cbn [String.app].
  do 3 rewrite (pretty_N_go_step _ _) by div_lia.
  replace (n mod 1000 mod 10)%N with (n mod 10)%N by div_lia.
  replace (n mod 1000 / 10 mod 10)%N with (n / 10 mod 10)%N by div_lia.
  replace (n mod 1000 / 100)%N with (n / 10 / 10 mod 10)%N by div_lia.
  replace (n / 10 / 10 / 10)%N with (n / 1000)%N by div_lia.
  reflexivity.
Qed.

Lemma ungroup_pad3 m : (m < 1000)%N -> Locale.ungroup (Locale.pad3 m) = Locale.pad3 m.
Proof.
  intros Hm. rewrite pad3_digits by exact Hm.
  cbn [Locale.ungroup]. by rewrite !digit_not_comma.
Qed.

Lemma ungroup_grouped fuel n :
  (n < 2 ^ N.of_nat (S fuel))%N ->
  Locale.ungroup (Locale.grouped fuel n) = pretty n.
Proof.
  revert n. induction fuel as [|fuel IH]; intros n Hn; cbn [Locale.grouped];
    [apply ungroup_pretty|].
  destruct (N.ltb_spec n 1000) as [Hlt|Hge]; [apply ungroup_pretty|].
  rewrite !ungroup_app, ungroup_pad3 by (apply N.mod_lt; lia).
  rewrite IH.
  - rewrite (pretty_thousands n Hge). reflexivity.
  - rewrite Nat2N.inj_succ, N.pow_succ_r' in Hn.
    set (P := (2 ^ N.of_nat (S fuel))%N) in *. div_lia.
Qed.

Lemma grouped_small fuel n : (n < 1000)%N -> Locale.grouped fuel n = pretty n.
Proof.
  intros Hn. destruct fuel; [reflexivity|]. cbn [Locale.grouped].
  apply N.ltb_lt in Hn. by rewrite Hn.
Qed.

Lemma Qfloor_half z : Qfloor (inject_Z z + (1 # 2)) = z.
Proof.
  unfold Qfloor, Qplus, inject_Z. cbn [Qnum Qden].
  change (Z.pos (1 * 2)) with 2%Z. div_lia.
Qed.

(** The en-US text of a natural number: its decimal digits, in groups of
    three. *)
Lemma toLocaleString_natural q (n : N) :
  (q == inject_Z (Z.of_N n))%Q ->
  Locale.toLocaleString q = Locale.grouped (N.to_nat (N.log2 n)) n.
Proof.
  intros Hq. unfold Locale.toLocaleString. cbv zeta.
  assert (Hpos : (0 <= q)%Q).
  { rewrite Hq. change 0%Q with (inject_Z 0). rewrite <- Zle_Qle. lia. }
  assert (Hfloor : Qfloor (Qabs q * 1000 + (1 # 2)) = (Z.of_N n * 1000)%Z).
  { rewrite <- (Qfloor_half (Z.of_N n * 1000)). apply Qfloor_comp.
    rewrite (Qabs_pos q Hpos), Hq, inject_Z_mult. reflexivity. }
  rewrite Hfloor.
  replace (Z.to_N (Z.of_N n * 1000)) with (n * 1000)%N by lia.
  rewrite N.div_mul, N.Div0.mod_mul by lia.
  destruct (Qlt_le_dec q 0) as [Hneg|_]; [lra|].
  change (Locale.fraction 0) with "".
  rewrite append_nil_r. reflexivity.
Qed.

(** Read without the commas, the en-US text of a natural number is its
    decimal numeral; below 1000 there is no comma. *)
Lemma toLocaleString_numeral q (n : N) :
  (q == inject_Z (Z.of_N n))%Q ->
  Locale.ungroup (Locale.toLocaleString q) = pretty n /\
  ((n < 1000)%N -> Locale.toLocaleString q = pretty n).
Proof.
  intros Hq. rewrite (toLocaleString_natural q n Hq). split.
  - apply ungroup_grouped. rewrite Nat2N.inj_succ, N2Nat.id.
    destruct (decide (n = 0%N)) as [->|Hn]; [reflexivity|].
    apply N.log2_spec. lia.
  - apply grouped_small.
Qed.

(** ** The animation *)

Lemma late_frame_progress a t :
  (0 < anim_duration a)%Q ->
  (anim_startTime a + anim_duration a <= t)%Q ->
  (1 <= progress a t)%Q.
Proof.
  intros Hd Ht. unfold progress. cbv zeta.
  apply Q.min_glb; [|apply Qle_refl].
  apply Qle_shift_div_l; [exact Hd|]. lra.
Qed.

Lemma full_progress_late a t :
  (0 < anim_duration a)%Q -> (1 <= progress a t)%Q -> late_frame a t.
Proof.
  intros Hd Hp. unfold late_frame. unfold progress in Hp. cbv zeta in Hp.
  pose proof (Q.le_min_l ((t - anim_startTime a) / anim_duration a) 1) as Hmin.
  assert (Hq : (1 <= (t - anim_startTime a) / anim_duration a)%Q) by lra.
  apply (Qmult_le_compat_r _ _ (anim_duration a)) in Hq; [|lra].
  assert (E : ((t - anim_startTime a) / anim_duration a * anim_duration a ==
               t - anim_startTime a)%Q) by (field; lra).
  lra.
Qed.

(** Once a frame arrives at or after the end of the duration, the text is
    the end value and no further frame is requested. *)
Lemma run_frames_completes fmt a frames element :
  (0 < anim_duration a)%Q ->
  Exists (fun t => (anim_startTime a + anim_duration a <= t)%Q) frames ->
  run_frames fmt a frames element =
  ({| textContent := fmt (anim_end a); color := color element |}, false).
Proof.
  intros Hd Hlate. revert element.
  induction frames as [|t rest IH]; intros element; [by apply Exists_nil in Hlate|].
  cbn [run_frames]. unfold update. cbv zeta.
  destruct (Qlt_le_dec (progress a t) 1) as [Hlt|Hge].
  - apply Exists_cons in Hlate as [Hnow|Hlater].
    + pose proof (late_frame_progress a t Hd Hnow). lra.
    + rewrite (IH Hlater). reflexivity.
  - reflexivity.
Qed.

Lemma cube_expand x : (x ^ 3 == x * x * x)%Q.
Proof. simpl. ring. Qed.

Lemma easeOut_0 : (easeOut 0 == 0)%Q.
Proof. reflexivity. Qed.

Lemma easeOut_1 : (easeOut 1 == 1)%Q.
Proof. reflexivity. Qed.

(** The first attempt that succeeds, if it is among the allowed ones, ends
    the run: its count is animated, the element is otherwise untouched. *)
Lemma machine_first_success net (loading : bool) o k c :
  obs_calls o = [] ->
  (k <= if loading then 0 else 2)%nat ->
  attempt_result (net k) = Normal c ->
  (forall j, (j < k)%nat -> attempt_fails (net j)) ->
  let o' := machine net (if loading then 0 else 2)%nat o in
  obs_animations o' =
    {| anim_start := 0; anim_end := c; anim_duration := 1000;
       anim_startTime := inject_Z (Z.of_N (obs_clock o')) |} :: obs_animations o /\
  obs_element o' = obs_element o /\
  length (obs_calls o') = S k.
Proof.
  intros Hcalls Hk Hsuccess Hfail o'. subst o'.
  assert (H0 : k = 0%nat \/ exists e, attempt_result (net 0%nat) = Throw e).
  { destruct k; [by left|right]. apply Hfail. lia. }
  assert (H1 : (k <= 1)%nat \/ exists e, attempt_result (net 1%nat) = Throw e).
  { destruct (decide (k <= 1)%nat); [by left|right]. apply Hfail. lia. }
  destruct loading; cbn [machine after_delay after_attempt obs_calls];
    rewrite Hcalls; cbn [length].
  - replace k with 0%nat in * by lia. rewrite Hsuccess. cbn. by rewrite Hcalls.
  - destruct H0 as [->|[e0 He0]].
    { rewrite Hsuccess. cbn. by rewrite Hcalls. }
    rewrite He0.
    destruct H1 as [Hk1|[e1 He1]].
    { replace k with 1%nat in * by (destruct k; [congruence|lia]).
      rewrite Hsuccess. cbn. by rewrite Hcalls. }
    rewrite He1.
    replace k with 2%nat in *.
    + rewrite Hsuccess. cbn. by rewrite Hcalls.
    + destruct k as [|[|[|k]]]; try congruence; lia.
Qed.

Lemma progress_before_end a t :
  (0 < anim_duration a)%Q -> (t < anim_startTime a + anim_duration a)%Q ->
  (progress a t == (t - anim_startTime a) / anim_duration a)%Q /\
  (progress a t < 1)%Q.
Proof.
  intros Hd Ht.
  assert (Hx : ((t - anim_startTime a) / anim_duration a < 1)%Q).
  { apply Qlt_shift_div_r; [exact Hd|]. lra. }
  unfold progress. cbv zeta.
  rewrite (Q.min_l _ _ (Qlt_le_weak _ _ Hx)). split; [reflexivity|exact Hx].
Qed.

(** A frame before the end of the animation towards [c]: the text is the
    value of the cubic at the elapsed share of the duration, rounded down,
    and the next frame is requested. *)
Lemma update_before_end fmt a c t element :
  anim_start a = 0%Q -> anim_end a = c -> anim_duration a = 1000%Q ->
  (t < anim_startTime a + 1000)%Q ->
  update fmt a t element =
    ({| textContent :=
          fmt (inject_Z (Qfloor
                 (c * (1 - (1 - (t - anim_startTime a) / 1000) ^ 3))));
        color := color element |}, true).
Proof.
  intros Hs He Hd Ht.
  destruct (progress_before_end a t) as [Hp Hlt]; [by rewrite Hd|by rewrite Hd|].
  unfold update. cbv zeta.
  destruct (Qlt_le_dec (progress a t) 1) as [_|Hge]; [|lra].
  unfold set_textContent. do 4 f_equal.
  unfold current, range, easeOut. rewrite Hs, He. apply Qfloor_comp.
  rewrite !cube_expand, Hp, Hd. ring.
Qed.

(** A frame at or after the end: the text is the end value, and no further
    frame is requested. *)
Lemma update_at_end fmt a t element :
  (0 < anim_duration a)%Q ->
  (anim_startTime a + anim_duration a <= t)%Q ->
  update fmt a t element =
    ({| textContent := fmt (anim_end a); color := color element |}, false).
Proof.
  intros Hd Ht. pose proof (late_frame_progress a t Hd Ht) as Hp.
  unfold update. cbv zeta.
  destruct (Qlt_le_dec (progress a t) 1) as [Hlt|_]; [lra|reflexivity].
Qed.

(** While frames arrive before the end, the element shows the value of the
    last of them. *)
Lemma run_frames_before_end fmt a c early t element :
  anim_start a = 0%Q -> anim_end a = c -> anim_duration a = 1000%Q ->
  Forall (fun t' => (t' < anim_startTime a + 1000)%Q) early ->
  (t < anim_startTime a + 1000)%Q ->
  run_frames fmt a (early ++ [t]) element =
    ({| textContent :=
          fmt (inject_Z (Qfloor
                 (c * (1 - (1 - (t - anim_startTime a) / 1000) ^ 3))));
        color := color element |}, true).
Proof.
  intros Hs He Hd Hearly Ht. revert element.
  induction Hearly as [|t' early Ht' _ IH]; intros element; cbn [app run_frames].
  - by rewrite (update_before_end fmt a c t element).
  - rewrite (update_before_end fmt a c t' element) by assumption.
    rewrite IH. reflexivity.
Qed.

Lemma cubic_increasing p q :
  (0 <= p)%Q -> (p < q)%Q -> (q <= 1)%Q ->
  (1 - (1 - p) ^ 3 < 1 - (1 - q) ^ 3)%Q.
Proof.
  intros Hp Hpq Hq. rewrite !cube_expand.
  assert (E : ((1 - (1 - q) * (1 - q) * (1 - q)) -
               (1 - (1 - p) * (1 - p) * (1 - p)) ==
               (q - p) * ((1 - p) * (1 - p) + (1 - p) * (1 - q) +
                          (1 - q) * (1 - q)))%Q) by ring.
  assert (H1 : (0 < (1 - p) * (1 - p))%Q) by (apply Qmult_lt_0_compat; lra).
  assert (H2 : (0 <= (1 - p) * (1 - q))%Q) by (apply Qmult_le_0_compat; lra).
  assert (H3 : (0 <= (1 - q) * (1 - q))%Q) by (apply Qmult_le_0_compat; lra).
  assert (H : (0 < (q - p) * ((1 - p) * (1 - p) + (1 - p) * (1 - q) +
                              (1 - q) * (1 - q)))%Q)
    by (apply Qmult_lt_0_compat; lra).
  lra.
Qed.

(** Ease-out: of two equal steps of progress, the later one moves the value
    less. *)
Lemma cubic_decelerates p q h :
  (0 < h)%Q -> (p < q)%Q -> (q + h <= 1)%Q ->
  ((1 - (1 - (q + h)) ^ 3) - (1 - (1 - q) ^ 3) <
   (1 - (1 - (p + h)) ^ 3) - (1 - (1 - p) ^ 3))%Q.
Proof.
  intros Hh Hpq Hq. rewrite !cube_expand.
  assert (H : (0 < 3 * h * (q - p) * ((1 - p) + (1 - q) - h))%Q).
  { repeat apply Qmult_lt_0_compat; lra. }
  assert (E : ((1 - (1 - (p + h)) * (1 - (p + h)) * (1 - (p + h)) -
               (1 - (1 - p) * (1 - p) * (1 - p))) -
              (1 - (1 - (q + h)) * (1 - (q + h)) * (1 - (q + h)) -
               (1 - (1 - q) * (1 - q) * (1 - q))) ==
              3 * h * (q - p) * ((1 - p) + (1 - q) - h))%Q) by ring.
  lra.
Qed.

(** C8. When an allowed attempt succeeds with the count c (the attempts
    before it having failed), one animation is started: from 0 to c, over
    1000 ms, starting now, and the element is left as it was.  Every frame
    that arrives before the 1000 ms have passed writes the value of the
    ease-out cubic, c * (1 - (1 - x)^3) at the elapsed share x of the
    duration, rounded down, and asks for the next frame; so a frame at the
    start time writes 0, and after any such frames the element shows the
    value of the last one.  The cubic goes from 0 to 1, rises strictly, and
    eases out: of two equal steps the later one moves the value strictly
    less.  Every frame that arrives 1000 ms or more after the start writes
    c as the locale writes it and asks for no further frame, and that is how
    the frames delivered leave the element.  In the en-US locale, for a
    count that is a natural number, that text is the decimal numeral of the
    count with a comma between groups of three digits: read without the
    commas it is the numeral, and below 1000 it is the numeral itself. *)
Theorem success_animates_to_count fmt net (loading : bool) now element k c frames :
  (k <= if loading then 0 else 2)%nat ->
  attempt_result (net k) = Normal c ->
  (forall j, (j < k)%nat -> attempt_fails (net j)) ->
  let w := initialize net loading (initial_world now element) in
  let cubic := fun x : Q => (1 - (1 - x) ^ 3)%Q in
  Exists (fun t => (performance_now w + 1000 <= t)%Q) frames ->
  exists a,
    animations w = [a] /\
    anim_start a = 0%Q /\ anim_end a = c /\ anim_duration a = 1000%Q /\
    anim_startTime a = performance_now w /\
    counterElement w = element /\
    (forall t el, (t < anim_startTime a + 1000)%Q ->
       update fmt a t el =
         ({| textContent :=
               fmt (inject_Z (Qfloor
                      (c * cubic ((t - anim_startTime a) / 1000)%Q)));
             color := color el |}, true)) /\
    (forall el,
       update fmt a (anim_startTime a) el =
         ({| textContent := fmt 0%Q; color := color el |}, true)) /\
    (forall early t,
       Forall (fun t' => (t' < anim_startTime a + 1000)%Q) early ->
       (t < anim_startTime a + 1000)%Q ->
       run_frames fmt a (early ++ [t]) (counterElement w) =
         ({| textContent :=
               fmt (inject_Z (Qfloor
                      (c * cubic ((t - anim_startTime a) / 1000)%Q)));
             color := color element |}, true)) /\
    (cubic 0 == 0)%Q /\ (cubic 1 == 1)%Q /\
    (forall p q, (0 <= p)%Q -> (p < q)%Q -> (q <= 1)%Q ->
       (cubic p < cubic q)%Q) /\
    (forall p q h, (0 < h)%Q -> (p < q)%Q -> (q + h <= 1)%Q ->
       (cubic (q + h) - cubic q < cubic (p + h) - cubic p)%Q) /\
    (forall t el, (anim_startTime a + 1000 <= t)%Q ->
       update fmt a t el =
         ({| textContent := fmt c; color := color el |}, false)) /\
    run_frames fmt a frames (counterElement w) =
      ({| textContent := fmt c; color := color element |}, false) /\
    (forall n : N, (c == inject_Z (Z.of_N n))%Q ->
       let text :=
         textContent
           (fst (run_frames Locale.toLocaleString a frames (counterElement w))) in
       Locale.ungroup text = pretty n /\
       ((n < 1000)%N -> text = pretty n)).
Proof.
  intros Hk Hsuccess Hfail w cubic Hlate.
  destruct (machine_first_success net loading
              (observe (initial_world now element)) k c
              eq_refl Hk Hsuccess Hfail) as (Hanim & Hel & _).
  rewrite <- initialize_machine in Hanim, Hel. fold w in Hanim, Hel.
  change (obs_animations (observe w)) with (animations w) in Hanim.
  change (obs_element (observe w)) with (counterElement w) in Hel.
  change (inject_Z (Z.of_N (obs_clock (observe w)))) with (performance_now w) in Hanim.
  cbn in Hanim, Hel.
  set (a := {| anim_start := 0; anim_end := c; anim_duration := 1000;
               anim_startTime := performance_now w |}) in *.
  assert (Hrun : forall fmt',
            run_frames fmt' a frames (counterElement w) =
            ({| textContent := fmt' c; color := color element |}, false)).
  { intros fmt'. rewrite Hel. apply run_frames_completes; [reflexivity|exact Hlate]. }
  exists a. split; [exact Hanim|].
  split; [reflexivity|]. split; [reflexivity|]. split; [reflexivity|].
  split; [reflexivity|]. split; [exact Hel|].
  split; [intros t el Ht; by apply update_before_end|].
  split.
  { intros el.
    rewrite (update_before_end fmt a c (anim_startTime a) el)
      by (reflexivity || lra).
    do 3 f_equal. change 0%Q with (inject_Z 0). f_equal.
    rewrite <- (Qfloor_Z 0). apply Qfloor_comp.
    rewrite cube_expand. unfold Qdiv. ring. }
  split.
  { intros early t Hearly Ht. rewrite Hel.
    by apply run_frames_before_end. }
  split; [reflexivity|]. split; [reflexivity|].
  split; [exact cubic_increasing|]. split; [exact cubic_decelerates|].
  split; [intros t el Ht; by apply update_at_end|].
  split; [apply Hrun|].
  intros n Hn text. subst text. rewrite Hrun. cbn [fst textContent].
  by apply toLocaleString_numeral.
Qed.

Lemma success_animates_to_count_witness :
  let w := initialize healthy false (initial_world 0 blank) in
  let cubic := fun x : Q => (1 - (1 - x) ^ 3)%Q in
  exists a,
    animations w = [a] /\
    anim_start a = 0%Q /\ anim_end a = 1%Q /\ anim_duration a = 1000%Q /\
    anim_startTime a = performance_now w /\
    counterElement w = blank /\
    (forall t el, (t < anim_startTime a + 1000)%Q ->
       update Locale.toLocaleString a t el =
         ({| textContent :=
               Locale.toLocaleString (inject_Z (Qfloor
                      (1 * cubic ((t - anim_startTime a) / 1000)%Q)));
             color := color el |}, true)) /\
    (forall el,
       update Locale.toLocaleString a (anim_startTime a) el =
         ({| textContent := Locale.toLocaleString 0%Q; color := color el |}, true)) /\
    (forall early t,
       Forall (fun t' => (t' < anim_startTime a + 1000)%Q) early ->
       (t < anim_startTime a + 1000)%Q ->
       run_frames Locale.toLocaleString a (early ++ [t]) (counterElement w) =
         ({| textContent :=
               Locale.toLocaleString (inject_Z (Qfloor
                      (1 * cubic ((t - anim_startTime a) / 1000)%Q)));
             color := color blank |}, true)) /\
    (cubic 0 == 0)%Q /\ (cubic 1 == 1)%Q /\
    (forall p q, (0 <= p)%Q -> (p < q)%Q -> (q <= 1)%Q ->
       (cubic p < cubic q)%Q) /\
    (forall p q h, (0 < h)%Q -> (p < q)%Q -> (q + h <= 1)%Q ->
       (cubic (q + h) - cubic q < cubic (p + h) - cubic p)%Q) /\
    (forall t el, (anim_startTime a + 1000 <= t)%Q ->
       update Locale.toLocaleString a t el =
         ({| textContent := Locale.toLocaleString 1; color := color el |}, false)) /\
    run_frames Locale.toLocaleString a [50%Q; 550%Q; 1050%Q] (counterElement w) =
      ({| textContent := "1"; color := "" |}, false) /\
    (forall n : N, (1 == inject_Z (Z.of_N n))%Q ->
       let text :=
         textContent
           (fst (run_frames Locale.toLocaleString a [50%Q; 550%Q; 1050%Q]
                   (counterElement w))) in
       Locale.ungroup text = pretty n /\
       ((n < 1000)%N -> text = pretty n)).
Proof.
  apply (success_animates_to_count Locale.toLocaleString healthy false 0 blank
           0 1%Q [50%Q; 550%Q; 1050%Q]).
  - simpl. lia.
  - reflexivity.
  - intros j Hj. lia.
  - do 2 constructor 2. constructor. vm_compute. discriminate.
Defined.

(** The scenario of the specification: the first request times out, the
    second is answered with the count 5.  Two requests were sent, the second
    6 seconds after the first, and the display settles at 5. *)
Lemma second_attempt_scenario :
  let w := initialize second_time_lucky false (initial_world 0 blank) in
  fetch_times w = [0%N; 6000%N] /\
  exists a, animations w = [a] /\
    run_frames Locale.toLocaleString a [6200%Q; 6700%Q; 7200%Q] (counterElement w) =
      ({| textContent := "5"; color := "" |}, false).
Proof.
  split; [vm_compute; reflexivity|].
  eexists. split; [vm_compute; reflexivity|].
  vm_compute. reflexivity.
Qed.

(** ** Bounds and monotonicity of the animation *)

Lemma progress_le_1 a t : (progress a t <= 1)%Q.
Proof. unfold progress. cbv zeta. apply Q.le_min_r. Qed.

Lemma progress_nonneg a t :
  (0 < anim_duration a)%Q -> (anim_startTime a <= t)%Q -> (0 <= progress a t)%Q.
Proof.
  intros Hd Ht. unfold progress. cbv zeta.
  apply Q.min_glb; [|lra].
  apply Qle_shift_div_l; [exact Hd|]. lra.
Qed.

Lemma progress_mono a t1 t2 :
  (0 < anim_duration a)%Q -> (t1 <= t2)%Q -> (progress a t1 <= progress a t2)%Q.
Proof.
  intros Hd Ht. unfold progress. cbv zeta.
  apply Q.min_le_compat_r.
  unfold Qdiv. apply Qmult_le_compat_r; [lra|].
  apply Qlt_le_weak, Qinv_lt_0_compat, Hd.
Qed.

Lemma cube_mono x y : (0 <= x)%Q -> (x <= y)%Q -> (x ^ 3 <= y ^ 3)%Q.
Proof.
  intros Hx Hxy. rewrite !cube_expand.
  assert (Hxx : (x * x <= y * y)%Q) by (apply Qmult_le_compat_nonneg; split; lra).
  apply Qmult_le_compat_nonneg; split; try lra.
  apply Qmult_le_0_compat; lra.
Qed.

Lemma easeOut_mono p q : (p <= q)%Q -> (q <= 1)%Q -> (easeOut p <= easeOut q)%Q.
Proof.
  intros Hpq Hq. unfold easeOut.
  assert (H : ((1 - q) ^ 3 <= (1 - p) ^ 3)%Q) by (apply cube_mono; lra).
  lra.
Qed.

Lemma easeOut_bounds p : (0 <= p)%Q -> (p <= 1)%Q -> (0 <= easeOut p <= 1)%Q.
Proof.
  intros H0 H1.
  pose proof (easeOut_mono 0 p H0 H1) as Hlo.
  pose proof (easeOut_mono p 1 H1 (Qle_refl 1)) as Hhi.
  pose proof easeOut_0. pose proof easeOut_1. lra.
Qed.

(** The exact value of line 98, before [Math.floor]. *)
Lemma value_mono a t1 t2 :
  (anim_start a <= anim_end a)%Q -> (0 < anim_duration a)%Q -> (t1 <= t2)%Q ->
  (anim_start a + range a * easeOut (progress a t1) <=
   anim_start a + range a * easeOut (progress a t2))%Q.
Proof.
  intros Hse Hd Ht.
  pose proof (easeOut_mono _ _ (progress_mono a t1 t2 Hd Ht) (progress_le_1 a t2)).
  assert (Hr : (0 <= range a)%Q) by (unfold range; lra).
  assert (range a * easeOut (progress a t1) <=
          range a * easeOut (progress a t2))%Q.
  { rewrite !(Qmult_comm (range a)). by apply Qmult_le_compat_r. }
  lra.
Qed.

Lemma value_le_end a t :
  (anim_start a <= anim_end a)%Q ->
  (anim_start a + range a * easeOut (progress a t) <= anim_end a)%Q.
Proof.
  intros Hse.
  pose proof (easeOut_mono _ _ (progress_le_1 a t) (Qle_refl 1)) as He.
  pose proof easeOut_1 as H1.
  assert (Hr : (0 <= range a)%Q) by (unfold range; lra).
  assert (range a * easeOut (progress a t) <= range a * 1)%Q.
  { rewrite !(Qmult_comm (range a)). apply Qmult_le_compat_r; lra. }
  unfold range in *. lra.
Qed.

Lemma value_ge_start a t :
  (anim_start a <= anim_end a)%Q -> (0 < anim_duration a)%Q ->
  (anim_startTime a <= t)%Q ->
  (anim_start a <= anim_start a + range a * easeOut (progress a t))%Q.
Proof.
  intros Hse Hd Ht.
  destruct (easeOut_bounds _ (progress_nonneg a t Hd Ht) (progress_le_1 a t))
    as [He _].
  assert (Hr : (0 <= range a)%Q) by (unfold range; lra).
  pose proof (Qmult_le_0_compat _ _ Hr He). lra.
Qed.

Lemma shown_le_end a t :
  (anim_start a <= anim_end a)%Q -> (shown a t <= anim_end a)%Q.
Proof.
  intros Hse. unfold shown, current.
  destruct (Qlt_le_dec (progress a t) 1); [|apply Qle_refl].
  eapply Qle_trans; [apply Qfloor_le|by apply value_le_end].
Qed.

Lemma shown_ge_start a s t :
  (anim_start a == inject_Z s)%Q ->
  (anim_start a <= anim_end a)%Q -> (0 < anim_duration a)%Q ->
  (anim_startTime a <= t)%Q ->
  (anim_start a <= shown a t)%Q.
Proof.
  intros Hs Hse Hd Ht. unfold shown, current.
  destruct (Qlt_le_dec (progress a t) 1); [|exact Hse].
  rewrite Hs at 1. rewrite <- Zle_Qle.
  rewrite <- (Qfloor_Z s). apply Qfloor_resp_le.
  rewrite <- Hs. by apply value_ge_start.
Qed.

Lemma shown_mono a t1 t2 :
  (anim_start a <= anim_end a)%Q -> (0 < anim_duration a)%Q -> (t1 <= t2)%Q ->
  (shown a t1 <= shown a t2)%Q.
Proof.
  intros Hse Hd Ht. unfold shown, current.
  pose proof (progress_mono a t1 t2 Hd Ht) as Hp.
  destruct (Qlt_le_dec (progress a t1) 1), (Qlt_le_dec (progress a t2) 1).
  - rewrite <- Zle_Qle. apply Qfloor_resp_le. by apply value_mono.
  - eapply Qle_trans; [apply Qfloor_le|by apply value_le_end].
  - lra.
  - apply Qle_refl.
Qed.

Lemma update_shows fmt a t element :
  textContent (fst (update fmt a t element)) = fmt (shown a t).
Proof.
  unfold update, shown. cbv zeta.
  destruct (Qlt_le_dec (progress a t) 1); reflexivity.
Qed.

Lemma shown_values_elem a frames v :
  v ∈ shown_values a frames -> exists t, t ∈ frames /\ v = shown a t.
Proof.
  induction frames as [|t rest IH]; cbn [shown_values]; intros Hv;
    [by apply elem_of_nil in Hv|].
  apply elem_of_cons in Hv as [->|Hv].
  - exists t. split; [left|reflexivity].
  - destruct (Qlt_le_dec (progress a t) 1); [|by apply elem_of_nil in Hv].
    destruct (IH Hv) as (t' & Hin & ->). exists t'. split; [by right|reflexivity].
Qed.

Lemma shown_values_bounded a s frames :
  (anim_start a == inject_Z s)%Q ->
  (anim_start a <= anim_end a)%Q -> (0 < anim_duration a)%Q ->
  Forall (fun t => (anim_startTime a <= t)%Q) frames ->
  Forall (fun v => (anim_start a <= v <= anim_end a)%Q) (shown_values a frames).
Proof.
  intros Hs Hse Hd Hframes. apply Forall_forall. intros v Hv.
  destruct (shown_values_elem a frames v Hv) as (t & Hin & ->).
  split; [|by apply shown_le_end].
  eapply shown_ge_start; eauto.
  exact (proj1 (Forall_forall _ _) Hframes t Hin).
Qed.

Lemma shown_values_sorted a frames :
  (anim_start a <= anim_end a)%Q -> (0 < anim_duration a)%Q ->
  StronglySorted Qle frames ->
  StronglySorted Qle (shown_values a frames).
Proof.
  intros Hse Hd Hsorted.
  induction Hsorted as [|t rest Hrest IH Hall]; cbn [shown_values];
    [constructor|].
  constructor.
  - destruct (Qlt_le_dec (progress a t) 1); [exact IH|constructor].
  - destruct (Qlt_le_dec (progress a t) 1); [|constructor].
    apply Forall_forall. intros v Hv.
    destruct (shown_values_elem a rest v Hv) as (t' & Hin & ->).
    apply shown_mono; try assumption.
    exact (proj1 (Forall_forall _ _) Hall t' Hin).
Qed.

(** After the frames delivered so far, the element shows the last of the
    values of [shown_values]. *)
Lemma run_frames_text fmt a frames element :
  match last (shown_values a frames) with
  | Some v => textContent (fst (run_frames fmt a frames element)) = fmt v
  | None => run_frames fmt a frames element = (element, true)
  end.
Proof.
  revert element. induction frames as [|t rest IH]; intros element;
    [reflexivity|].
  cbn [run_frames shown_values].
  pose proof (update_shows fmt a t element) as Hshow.
  unfold update in *. cbv zeta in *.
  destruct (Qlt_le_dec (progress a t) 1) as [Hlt|Hge]; [|exact Hshow].
  rewrite last_cons.
  specialize (IH (set_textContent (fmt (inject_Z (current a t))) element)).
  destruct (last (shown_values a rest)) as [v|]; [exact IH|].
  rewrite IH. exact Hshow.
Qed.

(** The counterexample to C10: the count 1000 arrives 100 ms after the page
    started, and the first frame carries the timestamp 90, the start of the
    frame in which the response was handled.  The element then shows -31,
    which is below the start value 0. *)
Lemma early_frame_undershoots :
  let w := initialize thousand false (initial_world 0 blank) in
  exists a,
    animations w = [a] /\
    (anim_start a <= anim_end a)%Q /\
    update Locale.toLocaleString a 90%Q (counterElement w) =
      ({| textContent := "-31"; color := "" |}, true) /\
    ~ (anim_start a <= shown a 90)%Q.
Proof.
  eexists. split; [vm_compute; reflexivity|].
  split; [vm_compute; discriminate|].
  split; [vm_compute; reflexivity|].
  vm_compute. intros H. apply H. reflexivity.
Qed.

(** Why the start value has to be an integer: [Math.floor] takes a start
    value of 0.5 down to 0. *)
Example fractional_start_undershoots :
  let a := {| anim_start := 1 # 2; anim_end := 7 # 10; anim_duration := 1000;
              anim_startTime := 0 |} in
  (anim_start a <= anim_end a)%Q /\ (shown a 0 == 0)%Q /\
  ~ (anim_start a <= shown a 0)%Q.
Proof.
  split; [vm_compute; discriminate|]. split; [reflexivity|].
  vm_compute. intros H. apply H. reflexivity.
Qed.

(** C10, as amended. For an integer start value s and an end value e with
    s <= e, a positive duration, and frames whose timestamps are not before
    the start time and do not decrease: every value on display lies between
    s and e, the values do not decrease from frame to frame, and they are
    what the element shows.  Progress is at most 1 at any time, and the
    ease-out cubic is monotone from [0,1] into [0,1]. *)
Theorem animation_within_bounds_and_monotone fmt a s frames element :
  (anim_start a == inject_Z s)%Q ->
  (anim_start a <= anim_end a)%Q ->
  (0 < anim_duration a)%Q ->
  Forall (fun t => (anim_startTime a <= t)%Q) frames ->
  StronglySorted Qle frames ->
  Forall (fun v => (anim_start a <= v <= anim_end a)%Q) (shown_values a frames) /\
  StronglySorted Qle (shown_values a frames) /\
  match last (shown_values a frames) with
  | Some v => textContent (fst (run_frames fmt a frames element)) = fmt v
  | None => run_frames fmt a frames element = (element, true)
  end /\
  (forall t, (progress a t <= 1)%Q) /\
  (forall p q, (0 <= p)%Q -> (p <= q)%Q -> (q <= 1)%Q ->
     (0 <= easeOut p)%Q /\ (easeOut p <= easeOut q)%Q /\ (easeOut q <= 1)%Q).
Proof.
  intros Hs Hse Hd Hframes Hsorted.
  split; [by eapply shown_values_bounded|].
  split; [by apply shown_values_sorted|].
  split; [apply run_frames_text|].
  split; [apply progress_le_1|].
  intros p q Hp Hpq Hq.
  destruct (easeOut_bounds p Hp) as [Hlo _]; [lra|].
  destruct (easeOut_bounds q) as [_ Hhi]; [lra|lra|].
  split; [exact Hlo|]. split; [by apply easeOut_mono|exact Hhi].
Qed.

Lemma animation_within_bounds_and_monotone_witness :
  let a := {| anim_start := 0; anim_end := 42; anim_duration := 1000;
              anim_startTime := 100 |} in
  let frames := [116%Q; 616%Q; 1116%Q; 1132%Q] in
  Forall (fun v => (anim_start a <= v <= anim_end a)%Q) (shown_values a frames) /\
  StronglySorted Qle (shown_values a frames) /\
  match last (shown_values a frames) with
  | Some v => textContent (fst (run_frames Locale.toLocaleString a frames blank)) =
              Locale.toLocaleString v
  | None => run_frames Locale.toLocaleString a frames blank = (blank, true)
  end /\
  (forall t, (progress a t <= 1)%Q) /\
  (forall p q, (0 <= p)%Q -> (p <= q)%Q -> (q <= 1)%Q ->
     (0 <= easeOut p)%Q /\ (easeOut p <= easeOut q)%Q /\ (easeOut q <= 1)%Q).
Proof.
  apply (animation_within_bounds_and_monotone Locale.toLocaleString
           {| anim_start := 0; anim_end := 42; anim_duration := 1000;
              anim_startTime := 100 |} 0
           [116%Q; 616%Q; 1116%Q; 1132%Q] blank).
  - reflexivity.
  - vm_compute. discriminate.
  - reflexivity.
  - repeat constructor; vm_compute; discriminate.
  - repeat constructor; vm_compute; discriminate.
Defined.

(** ** The counter service *)

Section ServiceFacts.

Import Service.

Variable counter_id : string.

Lemma handler_increment event :
  event !! "httpMethod" <> Some "OPTIONS" -> lambda_handler counter_id event = lambda_handler counter_id ∅.
Proof.
  intros Hne. unfold lambda_handler.
  destruct (decide (event !! "httpMethod" = Some "OPTIONS")); [contradiction|].
  destruct (decide ((∅ : gmap string string) !! "httpMethod" = Some "OPTIONS"))
    as [Heq|_]; [|reflexivity].
  rewrite lookup_empty in Heq. discriminate.
Qed.

Lemma handler_options event :
  event !! "httpMethod" = Some "OPTIONS" ->
  lambda_handler counter_id event =
  Return {| statusCode := 200; headers := cors_headers; body := EmptyBody |}.
Proof.
  intros Heq. unfold lambda_handler.
  destruct (decide (event !! "httpMethod" = Some "OPTIONS")); [reflexivity|].
  contradiction.
Qed.

Lemma handler_pending :
  exists k,
    lambda_handler counter_id ∅ = AtomicAdd counter_id 1 k /\
    (forall count, succeeded (k (Some count)) = true) /\
    succeeded (k None) = false /\
    forall outcome, returned (k outcome) = true.
Proof.
  unfold lambda_handler.
  destruct (decide ((∅ : gmap string string) !! "httpMethod" = Some "OPTIONS"))
    as [Heq|_]; [rewrite lookup_empty in Heq; discriminate|].
  eexists. split; [reflexivity|]. repeat split. intros [count|]; reflexivity.
Qed.

Lemma successes_insert pool i p p' :
  pool !! i = Some p ->
  (successes (<[i := p']> pool) + (if succeeded p then 1 else 0) =
   successes pool + (if succeeded p' then 1 else 0))%nat.
Proof.
  unfold successes. revert i.
  induction pool as [|x pool IH]; intros i Hi; [destruct i; discriminate Hi|].
  destruct i as [|i]; cbn in Hi.
  - change (<[0%nat := p']> (x :: pool)) with (p' :: pool).
    injection Hi as ->. rewrite !filter_cons.
    destruct (succeeded p), (succeeded p'); repeat case_decide;
      try congruence; cbn [length]; lia.
  - change (<[S i := p']> (x :: pool)) with (x :: <[i := p']> pool).
    specialize (IH i Hi). rewrite !filter_cons.
    case_decide; cbn [length]; lia.
Qed.

Lemma run_increment_pool schedule pool table :
  increment_pool counter_id pool ->
  increment_pool counter_id (fst (run schedule pool table)) /\
  (count_of (snd (run schedule pool table)) counter_id
     + Z.of_nat (successes pool) =
   count_of table counter_id
     + Z.of_nat (successes (fst (run schedule pool table))))%Z.
Proof.
  revert pool table.
  induction schedule as [|[i available] rest IH]; intros pool table Hpool;
    cbn [run]; [split; [exact Hpool|reflexivity]|].
  destruct (pool !! i) as [p|] eqn:Hi; [|by apply IH].
  assert (Hp : p = lambda_handler counter_id ∅ \/ returned p = true)
    by exact (proj1 (Forall_lookup _ _) Hpool i p Hi).
  destruct (step available p table) as [p' table'] eqn:Hstep.
  assert (Hstep' :
    (p' = lambda_handler counter_id ∅ \/ returned p' = true) /\
    (count_of table' counter_id + (if succeeded p then 1 else 0) =
     count_of table counter_id + (if succeeded p' then 1 else 0))%Z).
  { destruct Hp as [Hp|Hret].
    - destruct handler_pending as (k & Hk & Hsome & Hnone & Hret).
      rewrite Hp, Hk in Hstep. rewrite Hp, Hk. cbn [succeeded].
      destruct available; cbn [step] in Hstep; injection Hstep as <- <-.
      + split; [right; apply Hret|]. rewrite Hsome.
        unfold count_of. rewrite lookup_insert_eq. cbn [default from_option id]. lia.
      + split; [right; apply Hret|]. rewrite Hnone. lia.
    - destruct p; try discriminate Hret. cbn [step] in Hstep.
      injection Hstep as <- <-. split; [by right|]. lia. }
  destruct Hstep' as [Hp' Hcount].
  destruct (IH (<[i := p']> pool) table') as [Hinv Heq].
  { apply Forall_insert; assumption. }
  split; [exact Hinv|].
  pose proof (successes_insert pool i p p' Hi) as Hins.
  destruct (succeeded p), (succeeded p'); lia.
Qed.

Lemma run_returned schedule pool table :
  Forall (fun p => returned p = true) pool ->
  run schedule pool table = (pool, table).
Proof.
  intros Hpool.
  induction schedule as [|[i available] rest IH]; cbn [run]; [reflexivity|].
  destruct (pool !! i) as [p|] eqn:Hi; [|exact IH].
  pose proof (proj1 (Forall_lookup _ _) Hpool i p Hi) as Hret.
  destruct p; try discriminate Hret. cbn [step].
  rewrite list_insert_id by exact Hi. exact IH.
Qed.

End ServiceFacts.

(** With a read followed by a write, two concurrent calls can both succeed
    and advance the count by one only. *)
Example read_then_write_loses_an_update :
  let pool := [Service.read_then_write_handler "visitors" Service.post_event;
               Service.read_then_write_handler "visitors" Service.post_event] in
  let schedule := [(0, true); (1, true); (0, true); (1, true)]%nat in
  let result := Service.run schedule pool ∅ in
  Service.successes (fst result) = 2%nat /\
  Service.count_of (snd result) "visitors" = 1%Z.
Proof. split; vm_compute; reflexivity. Qed.

(** C1. However the storage operations of concurrent increment calls
    interleave, and whichever of them the storage backend fails to serve,
    the count of the Counter Record ends at its initial value plus the number
    of calls that returned success.  The handler performs the increment as
    one atomic add of 1, after which it returns: there is no read followed by
    a write. *)
Theorem atomic_increments_are_never_lost counter_id events schedule table :
  Forall (fun event : gmap string string =>
            event !! "httpMethod" <> Some "OPTIONS") events ->
  let result :=
    Service.run schedule (map (Service.lambda_handler counter_id) events) table in
  Service.count_of (snd result) counter_id =
    (Service.count_of table counter_id
     + Z.of_nat (Service.successes (fst result)))%Z /\
  Forall (fun event =>
            exists k,
              Service.lambda_handler counter_id event =
                Service.AtomicAdd counter_id 1 k /\
              forall outcome, Service.returned (k outcome) = true) events.
Proof.
  intros Hevents result. subst result. split.
  - destruct (run_increment_pool counter_id schedule
                (map (Service.lambda_handler counter_id) events) table)
      as [_ Heq].
    + apply Forall_map. eapply Forall_impl; [exact Hevents|].
      intros event Hne. left. by apply handler_increment.
    + assert (Hzero : Service.successes
                (map (Service.lambda_handler counter_id) events) = 0%nat).
      { unfold Service.successes. clear Heq.
        induction Hevents as [|event events Hne _ IH]; [reflexivity|].
        cbn [map]. rewrite filter_cons.
        rewrite (handler_increment counter_id event Hne).
        destruct (handler_pending counter_id) as (k & -> & _).
        case_decide as Hs; [discriminate Hs|exact IH]. }
      rewrite Hzero in Heq. lia.
  - eapply Forall_impl; [exact Hevents|].
    intros event Hne. rewrite (handler_increment counter_id event Hne).
    destruct (handler_pending counter_id) as (k & Hk & _ & _ & Hret).
    exists k. split; assumption.
Qed.

Lemma atomic_increments_are_never_lost_witness :
  let events := [Service.post_event; Service.post_event; Service.post_event] in
  let schedule := [(2, true); (0, true); (1, false); (0, true)]%nat in
  let table : gmap string Z := {[ "visitors" := 41%Z ]} in
  let result :=
    Service.run schedule (map (Service.lambda_handler "visitors") events) table in
  Service.count_of (snd result) "visitors" =
    (Service.count_of table "visitors"
     + Z.of_nat (Service.successes (fst result)))%Z /\
  Forall (fun event =>
            exists k,
              Service.lambda_handler "visitors" event =
                Service.AtomicAdd "visitors" 1 k /\
              forall outcome, Service.returned (k outcome) = true) events.
Proof.
  apply (atomic_increments_are_never_lost "visitors"
           [Service.post_event; Service.post_event; Service.post_event]
           [(2, true); (0, true); (1, false); (0, true)]%nat
           {[ "visitors" := 41%Z ]}).
  repeat constructor; vm_compute; discriminate.
Defined.

(** The run of the witness: two of the three calls succeed, 41 becomes 43. *)
Example two_of_three_succeed :
  let result :=
    Service.run [(2, true); (0, true); (1, false); (0, true)]%nat
      (map (Service.lambda_handler "visitors")
         [Service.post_event; Service.post_event; Service.post_event])
      {[ "visitors" := 41%Z ]} in
  Service.successes (fst result) = 2%nat /\
  Service.count_of (snd result) "visitors" = 43%Z.
Proof. split; vm_compute; reflexivity. Qed.

(** C6. An OPTIONS request is answered with status 200, an empty body and
    the three CORS headers, without any storage operation: the Counter Record
    is the same afterwards, for any number of such requests under any
    schedule. *)
Theorem options_never_touches_the_counter counter_id event n schedule table :
  event !! "httpMethod" = Some "OPTIONS" ->
  Service.lambda_handler counter_id event =
    Service.Return {| Service.statusCode := 200;
                      Service.headers := Service.cors_headers;
                      Service.body := Service.EmptyBody |} /\
  Service.cors_headers !! "Access-Control-Allow-Origin" = Some "*" /\
  Service.cors_headers !! "Access-Control-Allow-Headers" = Some "Content-Type" /\
  Service.cors_headers !! "Access-Control-Allow-Methods" = Some "OPTIONS,POST,GET" /\
  (forall available,
     Service.step available (Service.lambda_handler counter_id event) table =
     (Service.lambda_handler counter_id event, table)) /\
  Service.run schedule (replicate n (Service.lambda_handler counter_id event)) table =
    (replicate n (Service.lambda_handler counter_id event), table).
Proof.
  intros Hoptions. rewrite (handler_options counter_id event Hoptions).
  split; [reflexivity|]. split; [reflexivity|]. split; [reflexivity|].
  split; [reflexivity|]. split; [reflexivity|].
  apply run_returned. apply Forall_replicate. reflexivity.
Qed.

Lemma options_never_touches_the_counter_witness :
  let table : gmap string Z := {[ "visitors" := 41%Z ]} in
  let call := Service.lambda_handler "visitors" Service.options_event in
  call =
    Service.Return {| Service.statusCode := 200;
                      Service.headers := Service.cors_headers;
                      Service.body := Service.EmptyBody |} /\
  Service.cors_headers !! "Access-Control-Allow-Origin" = Some "*" /\
  Service.cors_headers !! "Access-Control-Allow-Headers" = Some "Content-Type" /\
  Service.cors_headers !! "Access-Control-Allow-Methods" = Some "OPTIONS,POST,GET" /\
  (forall available, Service.step available call table = (call, table)) /\
  Service.run [(0, true); (2, true); (1, false)]%nat (replicate 3 call) table =
    (replicate 3 call, table).
Proof.
  apply (options_never_touches_the_counter "visitors" Service.options_event 3
           [(0, true); (2, true); (1, false)]%nat {[ "visitors" := 41%Z ]}).
  reflexivity.
Defined.

(** * Further properties of the client *)

(** ** How a run ends *)

Lemma extract_count_settles data : extract_count data <> Pending.
Proof.
  pose proof (extract_count_cases data) as Hcases.
  destruct data; rewrite Hcases; discriminate.
Qed.

Lemma ok_range r : ok r = true <-> (200 <= status r <= 299)%Z.
Proof.
  unfold ok. rewrite andb_true_iff, !Z.leb_le. reflexivity.
Qed.

(** An attempt never ends exactly when the response arrives in time, with a
    success status, and its body never ends. *)
Lemma attempt_result_pending_iff p :
  attempt_result p = Pending <->
  exists latency r,
    p = SettlesAfter latency (Fulfilled r) /\
    (latency < 5000)%N /\
    (200 <= status r <= 299)%Z /\
    body r = StalledBody.
Proof.
  split.
  - unfold attempt_result. destruct p as [latency [r|]|]; try discriminate.
    + destruct (latency <? timeout_ms config)%N eqn:Hlat; [|discriminate].
      destruct (ok r) eqn:Hok; [|discriminate]. cbn [negb].
      destruct (body r) as [data| | |] eqn:Hbody; try discriminate.
      * pose proof (extract_count_settles data) as Hsettles.
        destruct (extract_count data) as [[]| |]; try discriminate.
        contradiction.
      * intros _. exists latency, r.
        apply N.ltb_lt in Hlat. apply ok_range in Hok. auto.
    + destruct (latency <? timeout_ms config)%N; discriminate.
  - intros (latency & r & -> & Hlat & Hok & Hbody).
    apply ok_range in Hok. apply N.ltb_lt in Hlat.
    change 5000%N with (timeout_ms config) in Hlat.
    unfold attempt_result. by rewrite Hlat, Hok, Hbody.
Qed.

Lemma machine_outcome net (loading : bool) o :
  obs_calls o = [] -> obs_delays o = [] -> obs_animations o = [] ->
  let o' := machine net (if loading then 0 else 2)%nat o in
  let sent := length (obs_calls o') in
  (1 <= sent <= if loading then 1 else 3)%nat /\
  map snd (obs_delays o') = replicate (sent - 1) 1000%N /\
  (forall k, (k < sent - 1)%nat -> attempt_fails (net k)) /\
  ((exists a, obs_animations o' = [a] /\
              anim_start a = 0%Q /\ anim_duration a = 1000%Q /\
              attempt_result (net (sent - 1)%nat) = Normal (anim_end a) /\
              obs_element o' = obs_element o) \/
   (obs_animations o' = [] /\ obs_element o' = error_element /\
    attempt_fails (net (sent - 1)%nat) /\
    sent = (if loading then 1 else 3)%nat) \/
   (obs_animations o' = [] /\ obs_element o' = obs_element o /\
    attempt_result (net (sent - 1)%nat) = Pending /\
    exists t calls, obs_calls o' = (t, net (sent - 1)%nat) :: calls)).
Proof.
  intros Hcalls Hdelays Hanim o' sent. subst o' sent. unfold attempt_fails.
  destruct loading; cbn [machine after_delay after_attempt obs_calls];
    rewrite Hcalls; cbn [length];
    destruct (attempt_result (net 0%nat)) eqn:H0;
    try (destruct (attempt_result (net 1%nat)) eqn:H1);
    try (destruct (attempt_result (net 2%nat)) eqn:H2);
    cbn [obs_calls obs_delays obs_animations obs_element after_success
         after_failure after_attempt after_delay];
    rewrite ?Hcalls, ?Hdelays, ?Hanim; cbn [length map snd Nat.sub replicate].
  all: split; [lia|]; split; [reflexivity|].
  all: split; [intros k Hk; destruct k as [|[|[|k]]]; try lia; eauto|].
  all: first [ left; eexists; split; [reflexivity|];
               cbn [anim_start anim_end anim_duration];
               split; [reflexivity|]; split; [reflexivity|];
               split; [assumption|reflexivity]
             | right; left; split; [reflexivity|]; split; [reflexivity|];
               split; [eauto|reflexivity]
             | right; right; split; [reflexivity|]; split; [reflexivity|];
               split; [assumption|by eexists _, _] ].
Qed.

(** X1. Whatever the network does, a run sends at least one request and at
    most three (one when the client runs as the listener), waits 1000 ms
    between consecutive requests and nowhere else, and retries only after
    failures.  It leaves the page in exactly one of three ways.  Either the
    last request succeeded: one animation from 0 to its count over 1000 ms
    is started and the element is as it was.  Or every allowed request
    failed: no animation is started and the element shows the error
    indicator.  Or the response to the last request arrived in time with a
    success status and its body never ends: the 5000 ms timer does not cover
    line 49, so the run waits there for ever, with no animation, no retry
    and no error indicator, the element as it was. *)
Theorem run_ends_in_success_error_or_hang net (loading : bool) now element :
  let w := initialize net loading (initial_world now element) in
  let sent := length (fetch_calls w) in
  (1 <= sent <= if loading then 1 else 3)%nat /\
  map snd (delay_timers w) = replicate (sent - 1) 1000%N /\
  (forall k, (k < sent - 1)%nat -> attempt_fails (net k)) /\
  ((exists a, animations w = [a] /\
              anim_start a = 0%Q /\ anim_duration a = 1000%Q /\
              attempt_result (net (sent - 1)%nat) = Normal (anim_end a) /\
              counterElement w = element) \/
   (animations w = [] /\ counterElement w = error_element /\
    attempt_fails (net (sent - 1)%nat) /\
    sent = (if loading then 1 else 3)%nat) \/
   (animations w = [] /\ counterElement w = element /\
    gave_up_of (trace w) = 0%nat /\
    exists latency r,
      net (sent - 1)%nat = SettlesAfter latency (Fulfilled r) /\
      (latency < 5000)%N /\
      (200 <= status r <= 299)%Z /\
      body r = StalledBody)).
Proof.
  intros w sent.
  assert (Hgave : (gave_up_of (trace w) + length (animations w) + hanging w
                   = 1)%nat).
  { subst w. unfold initialize.
    destruct loading;
      match goal with
      | |- context [fetchVisitorCount net ?arg ?w0] =>
          destruct (fetchVisitorCount_log net arg w0) as (_ & _ & Hgave)
      end; exact Hgave. }
  revert Hgave. unfold hanging. subst w sent.
  rewrite animations_observe, counterElement_observe, delay_timers_observe,
    fetch_calls_observe, initialize_machine.
  intros Hgave.
  destruct (machine_outcome net loading (observe (initial_world now element))
              eq_refl eq_refl eq_refl) as (Hsent & Hdelays & Hfail & Hend).
  split; [exact Hsent|]. split; [exact Hdelays|]. split; [exact Hfail|].
  destruct Hend as [Hend|[Hend|(Hanim & Hel & Hp & t & calls & Hcalls)]];
    [by left|by right; left|].
  right; right. split; [exact Hanim|]. split; [exact Hel|].
  split; [|by apply attempt_result_pending_iff].
  rewrite Hanim, Hcalls, Hp in Hgave. cbn [length] in Hgave. lia.
Qed.

(** X16. The 5000 ms timer bounds the wait for the response only, not the
    reading of its body.  When the response arrives in time with a success
    status, the [try] block is left when the body has been read, however
    long that takes, and then never by 'Request timeout'; when the body
    never ends the block is never left: no error is caught, no retry timer
    is set, and the page stays as it was. *)
Theorem body_is_read_without_a_deadline net attempt w latency r :
  net (length (fetch_calls w)) = SettlesAfter latency (Fulfilled r) ->
  (latency < 5000)%N ->
  (200 <= status r <= 299)%Z ->
  let w1 := fst (try_block net attempt w) in
  let result := snd (try_block net attempt w) in
  (body r <> StalledBody ->
   clock w1 = (clock w + latency + body_latency r)%N /\
   result <> Pending /\ result <> Throw RequestTimeout) /\
  (body r = StalledBody ->
   result = Pending /\
   animations w1 = animations w /\ counterElement w1 = counterElement w /\
   delay_timers w1 = delay_timers w /\
   fetch_errors_of (trace w1) = fetch_errors_of (trace w)).
Proof.
  intros Hnet Hlat Hok w1 result. subst w1 result.
  destruct (try_block_spec net attempt w)
    as (w1 & res & Htry & Hclock & Hel & _ & Htimers & Hres).
  destruct (try_block_trace net attempt w)
    as (w1' & res' & Htry' & _ & Herr & _).
  rewrite Htry in Htry'. injection Htry' as <- <-.
  rewrite Htry. cbn [fst snd]. rewrite Hnet in Hclock, Hres.
  apply ok_range in Hok. apply N.ltb_lt in Hlat.
  change 5000%N with (timeout_ms config) in Hlat.
  unfold attempt_duration, json_duration, race_duration, attempt_result
    in Hclock, Hres.
  rewrite Hlat, Hok in Hclock, Hres. cbn [andb negb] in Hclock, Hres.
  split.
  - intros Hbody. split.
    + rewrite Hclock. destruct (body r); [lia..|done].
    + destruct (body r) as [data| | |]; [| | |done].
      * pose proof (extract_count_cases data) as Hcases.
        destruct data; rewrite Hcases in Hres;
          try destruct (first_truthy _);
          destruct Hres as [-> _]; split; discriminate.
      * destruct Hres as [-> _]. split; discriminate.
      * destruct Hres as [-> _]. split; discriminate.
  - intros Hbody. rewrite Hbody in Hres. destruct Hres as [-> Hanim].
    split; [reflexivity|]. split; [exact Hanim|]. split; [exact Hel|].
    split; [|exact Herr].
    unfold delay_timers. by rewrite Htimers.
Qed.

Lemma body_is_read_without_a_deadline_witness :
  let w := initial_world 0 blank in
  (clock (fst (try_block slow_body (AttemptNumber 1) w)) = 60050%N /\
   snd (try_block slow_body (AttemptNumber 1) w) <> Pending /\
   snd (try_block slow_body (AttemptNumber 1) w) <> Throw RequestTimeout) /\
  snd (try_block stalling (AttemptNumber 1) w) = Pending.
Proof.
  split.
  - apply (body_is_read_without_a_deadline slow_body (AttemptNumber 1)
             (initial_world 0 blank) 50
             {| status := 200;
                body := JsonBody (JsObject {[ "count" := JsNumber 7 ]});
                body_latency := 60000 |});
      [reflexivity | reflexivity | simpl; lia | discriminate].
  - apply (body_is_read_without_a_deadline stalling (AttemptNumber 1)
             (initial_world 0 blank) 50
             {| status := 200; body := StalledBody; body_latency := 0 |});
      [reflexivity | reflexivity | simpl; lia | reflexivity].
Defined.

(** A server whose answer arrives in time and whose body never ends: one
    request is sent, nothing more happens, and the page stays as it was. *)
Example stalled_body_hangs :
  let w := initialize stalling false (initial_world 0 blank) in
  length (fetch_calls w) = 1%nat /\ delay_timers w = [] /\
  counterElement w = blank /\ animations w = [] /\
  fetch_errors_of (trace w) = [] /\ gave_up_of (trace w) = 0%nat.
Proof. repeat split. Qed.

(** X2. On a network whose first answer fails and whose second answer
    carries a count, the two ways of starting the client differ.  Called
    directly, it retries: two requests, the count animated, the element
    untouched.  Called as the DOMContentLoaded listener, its argument is the
    event object, the test of line 66 is false, and it gives up after the
    one request: the element shows the error indicator. *)
Theorem listener_gives_up_where_direct_call_retries net now element c :
  attempt_fails (net 0%nat) ->
  attempt_result (net 1%nat) = Normal c ->
  let direct := initialize net false (initial_world now element) in
  let listener := initialize net true (initial_world now element) in
  (length (fetch_calls direct) = 2%nat /\
   counterElement direct = element /\
   map anim_end (animations direct) = [c]) /\
  (length (fetch_calls listener) = 1%nat /\
   delay_timers listener = [] /\
   counterElement listener = error_element /\
   animations listener = []).
Proof.
  intros Hfirst Hsecond direct listener. subst direct listener. split.
  - destruct (machine_first_success net false
                (observe (initial_world now element)) 1 c eq_refl)
      as (Hanim & Hel & Hlen); [simpl; lia|assumption| |].
    { intros j Hj. replace j with 0%nat by lia. assumption. }
    pose proof (initialize_machine net false (initial_world now element)) as Hm.
    cbv iota in Hanim, Hel, Hlen, Hm. rewrite <- Hm in Hanim, Hel, Hlen.
    rewrite fetch_calls_observe, counterElement_observe, animations_observe.
    rewrite Hanim. repeat split; assumption.
  - rewrite fetch_calls_observe, counterElement_observe, animations_observe,
      delay_timers_observe, initialize_machine.
    destruct Hfirst as [e He]. cbn [machine]. cbn [observe initial_world obs_calls
      fetch_calls fetch_calls_of trace length]. rewrite He. repeat split.
Qed.

Lemma listener_gives_up_where_direct_call_retries_witness :
  let direct := initialize second_time_lucky false (initial_world 0 blank) in
  let listener := initialize second_time_lucky true (initial_world 0 blank) in
  (length (fetch_calls direct) = 2%nat /\
   counterElement direct = blank /\
   map anim_end (animations direct) = [5%Q]) /\
  (length (fetch_calls listener) = 1%nat /\
   delay_timers listener = [] /\
   counterElement listener = error_element /\
   animations listener = []).
Proof.
  apply (listener_gives_up_where_direct_call_retries second_time_lucky 0 blank 5%Q).
  - exists RequestTimeout. reflexivity.
  - reflexivity.
Defined.

(** ** When an attempt succeeds *)

Lemma attempt_result_normal_iff p c :
  attempt_result p = Normal c <->
  exists latency r data,
    p = SettlesAfter latency (Fulfilled r) /\
    (latency < 5000)%N /\
    (200 <= status r <= 299)%Z /\
    body r = JsonBody data /\
    extract_count data = Normal (JsNumber c).
Proof.
  split.
  - unfold attempt_result. destruct p as [latency [r|]|]; try discriminate.
    + destruct (latency <? timeout_ms config)%N eqn:Hlat; [|discriminate].
      destruct (ok r) eqn:Hok; [|discriminate]. cbn [negb].
      destruct (body r) as [data| | |] eqn:Hbody; try discriminate.
      destruct (extract_count data) as [[]| |] eqn:Hcount; try discriminate.
      intros [= <-]. exists latency, r, data.
      apply N.ltb_lt in Hlat. apply ok_range in Hok. auto.
    + destruct (latency <? timeout_ms config)%N; discriminate.
  - intros (latency & r & data & -> & Hlat & Hok & Hbody & Hcount).
    apply ok_range in Hok.
    rewrite (answered_result latency r data Hlat Hok Hbody), Hcount.
    reflexivity.
Qed.

(** X3. One pass through the [try] block completes without a throw exactly
    when the fetch settles before the 5000 ms timer, with a response whose
    status is between 200 and 299, whose body parses, and in whose body the
    fallback chain of line 53 selects a number. *)
Theorem attempt_succeeds_iff net attempt w :
  snd (try_block net attempt w) = Normal tt <->
  exists latency r data c,
    net (length (fetch_calls w)) = SettlesAfter latency (Fulfilled r) /\
    (latency < 5000)%N /\
    (200 <= status r <= 299)%Z /\
    body r = JsonBody data /\
    extract_count data = Normal (JsNumber c).
Proof.
  destruct (try_block_spec net attempt w)
    as (w1 & r & Htry & _ & _ & _ & _ & Hres).
  rewrite Htry. cbn [snd]. split.
  - intros ->.
    destruct (attempt_result (net (length (fetch_calls w)))) as [c|e|] eqn:Hp;
      [|destruct Hres as [Hr _]; discriminate Hr..].
    apply attempt_result_normal_iff in Hp
      as (latency & r & data & Heq & Hrest).
    exists latency, r, data, c. auto.
  - intros (latency & r' & data & c & Heq & Hrest).
    assert (Hp : attempt_result (net (length (fetch_calls w))) = Normal c).
    { apply attempt_result_normal_iff. exists latency, r', data. auto. }
    rewrite Hp in Hres. apply Hres.
Qed.

(** ** A member that is truthy but not a number *)

(** X4. The fallback chain stops at the first truthy member, number or not.
    A truthy value that is not a number under count (or under visitor_count
    when count is falsy) therefore makes the response invalid, whatever
    the names after it hold. *)
Theorem truthy_non_number_shadows_later_names latency r data name :
  body r = JsonBody data ->
  name = "count" \/
    (name = "visitor_count" /\ truthy (field data "count") = false) ->
  truthy (field data name) = true ->
  is_number (field data name) = false ->
  attempt_fails (SettlesAfter latency (Fulfilled r)).
Proof.
  intros Hbody Hname Htruthy Hnot.
  assert (Hfirst : first_truthy data = field data name).
  { unfold first_truthy. cbv zeta.
    destruct Hname as [->|[-> Hcount]].
    - rewrite Htruthy. reflexivity.
    - rewrite Hcount, Htruthy. reflexivity. }
  unfold attempt_fails, attempt_result.
  destruct (latency <? timeout_ms config)%N; [|by eexists].
  destruct (negb (ok r)); [by eexists|].
  rewrite Hbody.
  pose proof (extract_count_cases data) as Hcases.
  destruct data; rewrite Hcases; try (by eexists);
    rewrite Hfirst; destruct (field _ name); try discriminate Hnot; by eexists.
Qed.

Lemma truthy_non_number_shadows_later_names_witness :
  is_number (field count_as_string "visitor_count") = true /\
  attempt_fails (answers 30 count_as_string).
Proof.
  split; [reflexivity|].
  apply (truthy_non_number_shadows_later_names 30
           {| status := 200; body := JsonBody count_as_string; body_latency := 0 |}
           count_as_string "count");
    [reflexivity | left; reflexivity | reflexivity | reflexivity].
Defined.

(** ** When the animation is over *)

(** X5. With a positive duration, the animation has stopped requesting
    frames exactly when one of the frames delivered so far arrived at or
    after the start time plus the duration; until then it keeps asking for
    the next frame. *)
Theorem animation_completes_iff fmt a frames element :
  (0 < anim_duration a)%Q ->
  snd (run_frames fmt a frames element) = false <->
  Exists (late_frame a) frames.
Proof.
  intros Hd. split.
  - revert element. induction frames as [|t rest IH]; intros element;
      [discriminate|].
    cbn [run_frames]. unfold update. cbv zeta.
    destruct (Qlt_le_dec (progress a t) 1) as [Hlt|Hge].
    + intros H. right. exact (IH _ H).
    + intros _. left. by apply full_progress_late.
  - intros Hlate. by rewrite (run_frames_completes fmt a frames element Hd Hlate).
Qed.

Lemma animation_completes_iff_witness :
  let a := {| anim_start := 0; anim_end := 42; anim_duration := 1000;
              anim_startTime := 100 |} in
  (snd (run_frames Locale.toLocaleString a [116%Q; 616%Q] blank) = false <->
   Exists (late_frame a) [116%Q; 616%Q]) /\
  (snd (run_frames Locale.toLocaleString a [116%Q; 1100%Q] blank) = false <->
   Exists (late_frame a) [116%Q; 1100%Q]).
Proof.
  split.
  - apply (animation_completes_iff Locale.toLocaleString
             {| anim_start := 0; anim_end := 42; anim_duration := 1000;
                anim_startTime := 100 |} [116%Q; 616%Q] blank).
    reflexivity.
  - apply (animation_completes_iff Locale.toLocaleString
             {| anim_start := 0; anim_end := 42; anim_duration := 1000;
                anim_startTime := 100 |} [116%Q; 1100%Q] blank).
    reflexivity.
Defined.

(** ** An animation that counts down *)

Lemma value_antimono a t1 t2 :
  (anim_end a <= anim_start a)%Q -> (0 < anim_duration a)%Q -> (t1 <= t2)%Q ->
  (anim_start a + range a * easeOut (progress a t2) <=
   anim_start a + range a * easeOut (progress a t1))%Q.
Proof.
  intros Hes Hd Ht.
  pose proof (easeOut_mono _ _ (progress_mono a t1 t2 Hd Ht) (progress_le_1 a t2))
    as He.
  assert (Hr : (0 <= - range a)%Q) by (unfold range; lra).
  pose proof (Qmult_le_compat_r _ _ (- range a) He Hr) as Hm.
  assert (E1 : (easeOut (progress a t1) * - range a ==
                - (range a * easeOut (progress a t1)))%Q) by ring.
  assert (E2 : (easeOut (progress a t2) * - range a ==
                - (range a * easeOut (progress a t2)))%Q) by ring.
  lra.
Qed.

Lemma value_ge_end a t :
  (anim_end a <= anim_start a)%Q ->
  (anim_end a <= anim_start a + range a * easeOut (progress a t))%Q.
Proof.
  intros Hes.
  pose proof (easeOut_mono _ _ (progress_le_1 a t) (Qle_refl 1)) as He.
  pose proof easeOut_1 as H1.
  assert (Hr : (0 <= - range a)%Q) by (unfold range; lra).
  pose proof (Qmult_le_compat_r _ _ (- range a) He Hr) as Hm.
  assert (E1 : (easeOut (progress a t) * - range a ==
                - (range a * easeOut (progress a t)))%Q) by ring.
  assert (E2 : (easeOut 1 * - range a == - range a * easeOut 1)%Q) by ring.
  assert (E3 : (- range a * easeOut 1 == - range a)%Q) by (rewrite H1; ring).
  unfold range in *. lra.
Qed.

Lemma value_le_start a t :
  (anim_end a <= anim_start a)%Q -> (0 < anim_duration a)%Q ->
  (anim_startTime a <= t)%Q ->
  (anim_start a + range a * easeOut (progress a t) <= anim_start a)%Q.
Proof.
  intros Hes Hd Ht.
  destruct (easeOut_bounds _ (progress_nonneg a t Hd Ht) (progress_le_1 a t))
    as [He _].
  assert (Hr : (0 <= - range a)%Q) by (unfold range; lra).
  pose proof (Qmult_le_0_compat _ _ Hr He) as Hm.
  assert (E : (- range a * easeOut (progress a t) ==
               - (range a * easeOut (progress a t)))%Q) by ring.
  lra.
Qed.

Lemma shown_ge_end a e t :
  (anim_end a == inject_Z e)%Q -> (anim_end a <= anim_start a)%Q ->
  (anim_end a <= shown a t)%Q.
Proof.
  intros He Hes. unfold shown, current.
  destruct (Qlt_le_dec (progress a t) 1); [|apply Qle_refl].
  rewrite He at 1. rewrite <- Zle_Qle.
  rewrite <- (Qfloor_Z e). apply Qfloor_resp_le.
  rewrite <- He. by apply value_ge_end.
Qed.

Lemma shown_le_start a t :
  (anim_end a <= anim_start a)%Q -> (0 < anim_duration a)%Q ->
  (anim_startTime a <= t)%Q ->
  (shown a t <= anim_start a)%Q.
Proof.
  intros Hes Hd Ht. unfold shown, current.
  destruct (Qlt_le_dec (progress a t) 1); [|exact Hes].
  eapply Qle_trans; [apply Qfloor_le|by apply value_le_start].
Qed.

Lemma shown_antimono a e t1 t2 :
  (anim_end a == inject_Z e)%Q -> (anim_end a <= anim_start a)%Q ->
  (0 < anim_duration a)%Q -> (t1 <= t2)%Q ->
  (shown a t2 <= shown a t1)%Q.
Proof.
  intros He Hes Hd Ht.
  pose proof (shown_ge_end a e t1 He Hes) as Hge.
  pose proof (progress_mono a t1 t2 Hd Ht) as Hp.
  unfold shown, current in *.
  destruct (Qlt_le_dec (progress a t1) 1), (Qlt_le_dec (progress a t2) 1).
  - rewrite <- Zle_Qle. apply Qfloor_resp_le. by apply value_antimono.
  - exact Hge.
  - lra.
  - apply Qle_refl.
Qed.

(** X7. A count below zero is animated downwards.  For an integer end value
    e below the start value s, a positive duration, and frames whose
    timestamps are not before the start time and do not decrease: every
    value on display lies between e and s, and the values do not increase
    from frame to frame. *)
Theorem countdown_within_bounds_and_monotone a e frames :
  (anim_end a == inject_Z e)%Q ->
  (anim_end a <= anim_start a)%Q ->
  (0 < anim_duration a)%Q ->
  Forall (fun t => (anim_startTime a <= t)%Q) frames ->
  StronglySorted Qle frames ->
  Forall (fun v => (anim_end a <= v <= anim_start a)%Q) (shown_values a frames) /\
  StronglySorted (fun v v' => (v' <= v)%Q) (shown_values a frames).
Proof.
  intros He Hes Hd Hframes Hsorted. split.
  - apply Forall_forall. intros v Hv.
    destruct (shown_values_elem a frames v Hv) as (t & Hin & ->).
    split; [by eapply shown_ge_end|].
    apply shown_le_start; try assumption.
    exact (proj1 (Forall_forall _ _) Hframes t Hin).
  - clear Hframes.
    induction Hsorted as [|t rest Hrest IH Hall]; cbn [shown_values];
      [constructor|].
    constructor.
    + destruct (Qlt_le_dec (progress a t) 1); [exact IH|constructor].
    + destruct (Qlt_le_dec (progress a t) 1); [|constructor].
      apply Forall_forall. intros v Hv.
      destruct (shown_values_elem a rest v Hv) as (t' & Hin & ->).
      eapply shown_antimono; try eassumption.
      exact (proj1 (Forall_forall _ _) Hall t' Hin).
Qed.

Lemma countdown_within_bounds_and_monotone_witness :
  let a := {| anim_start := 0; anim_end := -7; anim_duration := 1000;
              anim_startTime := 100 |} in
  let frames := [116%Q; 616%Q; 1116%Q] in
  shown_values a frames = [inject_Z (-1); inject_Z (-7); (-7)%Q] /\
  Forall (fun v => (anim_end a <= v <= anim_start a)%Q) (shown_values a frames) /\
  StronglySorted (fun v v' => (v' <= v)%Q) (shown_values a frames).
Proof.
  split; [vm_compute; reflexivity|].
  apply (countdown_within_bounds_and_monotone
           {| anim_start := 0; anim_end := -7; anim_duration := 1000;
              anim_startTime := 100 |} (-7)
           [116%Q; 616%Q; 1116%Q]).
  - reflexivity.
  - vm_compute. discriminate.
  - reflexivity.
  - repeat constructor; vm_compute; discriminate.
  - repeat constructor; vm_compute; discriminate.
Defined.

(** ** What a run sends and what it logs *)

Lemma fetchVisitorCount_requests net arg w :
  exists n,
    requests_of (trace (fetchVisitorCount net arg w)) =
      replicate n (apiEndpoint config, "POST") ++ requests_of (trace w).
Proof.
  remember (attempts_left (attempt_or_default arg)) as retries eqn:Hretries.
  revert arg w Hretries.
  induction retries as [|retries IH]; intros arg w Hretries;
    rewrite fetchVisitorCount_eq; cbv zeta;
    destruct (try_block_trace net (attempt_or_default arg) w)
      as (w1 & r & Htry & Hreq & _);
    rewrite Htry; destruct r as [u|e|]; try (by exists 1%nat);
    destruct (less_than (attempt_or_default arg) (retryAttempts config)) eqn:Hlt;
    try (by exists 1%nat).
  - apply attempts_left_retry in Hlt. congruence.
  - destruct (IH (Some (plus_one (attempt_or_default arg)))
                (wait_before_retry
                   (catch_prologue (attempt_or_default arg) e w1)))
      as [n Hn].
    { apply attempts_left_retry in Hlt. simpl. congruence. }
    exists (n + 1)%nat. rewrite Hn.
    change (requests_of (trace (wait_before_retry
              (catch_prologue (attempt_or_default arg) e w1))))
      with (requests_of (trace w1)).
    rewrite Hreq, replicate_add. cbn [replicate]. by rewrite <- app_assoc.
Qed.

(** X8. Every request the client sends is a POST to the configured
    endpoint: a run adds such requests to the trace and no others. *)
Theorem every_request_is_a_post net (loading : bool) now element :
  let w := initialize net loading (initial_world now element) in
  Forall (fun request => request = (apiEndpoint config, "POST"))
    (requests_of (trace w)) /\
  length (requests_of (trace w)) = length (fetch_calls w).
Proof.
  intros w.
  assert (Hlen : forall tr, length (requests_of tr) = length (fetch_calls_of tr)).
  { induction tr as [|[t [m|url method p|cb ms]] tr IH]; cbn; congruence. }
  split; [|apply Hlen].
  subst w. unfold initialize.
  destruct loading;
    match goal with
    | |- context [fetchVisitorCount net ?arg ?w0] =>
        destruct (fetchVisitorCount_requests net arg w0) as [n ->]
    end;
    cbn [initial_world trace requests_of]; rewrite app_nil_r;
    apply Forall_replicate; reflexivity.
Qed.

(** X9. No failure goes unreported.  After a run, every request has either
    started the animation or left one console.error entry, in order, the
    last request apart when the run waits for its body for ever; the entry
    of the i-th request carries the error that attempt threw and the value
    of [attempt] (i+1 on a direct call, the event object as listener).
    'All retry attempts failed' is reported once exactly when no animation
    was started and the run does not wait for a body. *)
Theorem every_failure_is_logged net (loading : bool) now element :
  let w := initialize net loading (initial_world now element) in
  let errors := rev (fetch_errors_of (trace w)) in
  (length errors + length (animations w) + hanging w =
   length (fetch_calls w))%nat /\
  (forall i att e, errors !! i = Some (att, e) ->
     attempt_result (net i) = Throw e /\
     att = if loading then AttemptEvent else AttemptNumber (S i)) /\
  (gave_up_of (trace w) + length (animations w) + hanging w = 1)%nat.
Proof.
  intros w errors. subst w errors. unfold initialize.
  destruct loading;
    match goal with
    | |- context [fetchVisitorCount net ?arg ?w0] =>
        destruct (fetchVisitorCount_log net arg w0) as (Herr & Hcount & Hgave)
    end;
    cbn [initial_world trace fetch_errors_of gave_up_of animations fetch_calls
         fetch_calls_of length] in Herr, Hcount, Hgave;
    rewrite app_nil_r in Herr; rewrite Herr, !rev_involutive;
    rewrite Herr, length_rev in Hcount;
    (split; [lia|]); (split; [|lia]);
    intros i att e Hi; apply expected_errors_lookup in Hi as [Hres ->];
    (split; [exact Hres|]);
    [apply iter_plus_one_event|apply (iter_plus_one_number i 1)].
Qed.

(** * Properties of the development script *)

Section DevScriptFacts.

Import DevScript.

Variable env : Env.

Lemma commands_run_snoc lines l :
  commands_run (lines ++ [l]) =
  commands_run lines ++ match l with Run cmd => [cmd] | _ => [] end.
Proof.
  unfold commands_run. rewrite omap_app. destruct l; reflexivity.
Qed.

Lemma fails_fast_ret {A} (a : A) (Q : A -> Prop) :
  Q a -> fails_fast env (mret a) Q.
Proof. intros HQ s Hs. cbn. auto. Qed.

Lemma fails_fast_bind {A B} (m : Sh A) (k : A -> Sh B) Q R :
  fails_fast env m Q ->
  (forall a, Q a -> fails_fast env (k a) R) ->
  fails_fast env (m ≫= k) R.
Proof.
  intros Hm Hk s Hs. specialize (Hm s Hs).
  unfold mbind, Sh_bind. destruct (m s) as [s1 [a|code]]; [|exact Hm].
  destruct Hm as [Hs1 HQ]. exact (Hk a HQ s1 Hs1).
Qed.

Lemma fails_fast_weaken {A} (m : Sh A) (Q R : A -> Prop) :
  fails_fast env m Q -> (forall a, Q a -> R a) -> fails_fast env m R.
Proof.
  intros Hm HQR s Hs. specialize (Hm s Hs).
  destruct (m s) as [s1 [a|code]]; [|exact Hm].
  destruct Hm as [Hs1 HQ]. auto.
Qed.

Lemma fails_fast_print l :
  is_report l = false ->
  match l with Run _ => False | _ => True end ->
  fails_fast env (print l) (fun _ => True).
Proof.
  intros Hl Hrun s (Hrep & Hlen & Hok). unfold print, running.
  cbn [transcript commands]. split; [|exact I].
  split; [|split].
  - apply Forall_app. split; [exact Hrep|by constructor].
  - rewrite commands_run_snoc, length_app, Hlen.
    destruct l; cbn; first [lia|contradiction].
  - exact Hok.
Qed.

Lemma running_after_command s cmd :
  running env s ->
  let s1 := {| transcript := transcript s ++ [Run cmd];
               commands := S (commands s) |} in
  Forall (fun l => is_report l = false) (transcript s1) /\
  length (commands_run (transcript s1)) = commands s1 /\
  (forall k, (S k < commands s1)%nat -> status env k = 0%nat) /\
  last (transcript s1) = Some (Run cmd).
Proof.
  intros (Hrep & Hlen & Hok). cbn [transcript commands]. repeat split.
  - apply Forall_app. split; [exact Hrep|by constructor].
  - rewrite commands_run_snoc, length_app, Hlen. cbn. lia.
  - intros k Hk. apply Hok. lia.
  - apply last_snoc.
Qed.

Lemma fails_fast_sh cmd :
  fails_fast env (sh env cmd) (fun st => st = 0%nat).
Proof.
  intros s Hs. destruct (running_after_command s cmd Hs) as (H1 & H2 & H3 & H4).
  unfold sh. cbv zeta.
  destruct (Nat.eqb_spec (status env (commands s)) 0) as [Hzero|Hnonzero].
  - split; [|exact Hzero]. split; [exact H1|]. split; [exact H2|].
    cbn. intros k Hk. destruct (decide (k = commands s)) as [->|Hne];
      [exact Hzero|]. apply H3. cbn. lia.
  - split; [exact H1|]. split; [exact H2|]. split; [exact H3|].
    split; [exact Hnonzero|]. left. exists cmd. split; [exact H4|].
    cbn. split; [lia|]. by rewrite Nat.sub_0_r.
Qed.

Lemma fails_fast_capture cmd :
  fails_fast env (capture env cmd) (fun _ => True).
Proof.
  intros s Hs. destruct (running_after_command s cmd Hs) as (H1 & H2 & H3 & H4).
  unfold capture. cbv zeta.
  destruct (Nat.eqb_spec (status env (commands s)) 0) as [Hzero|Hnonzero].
  - split; [|exact I]. split; [exact H1|]. split; [exact H2|].
    cbn. intros k Hk. destruct (decide (k = commands s)) as [->|Hne];
      [exact Hzero|]. apply H3. cbn. lia.
  - split; [exact H1|]. split; [exact H2|]. split; [exact H3|].
    split; [exact Hnonzero|]. left. exists cmd. split; [exact H4|].
    cbn. split; [lia|]. by rewrite Nat.sub_0_r.
Qed.

Lemma fails_fast_missing {A} cmd (Q : A -> Prop) :
  is_report (Failure (cmd +:+ " is not installed")) = false ->
  fails_fast env (print_error (cmd +:+ " is not installed");; exit 1) Q.
Proof.
  intros Hl s (Hrep & Hlen & Hok).
  unfold mbind, Sh_bind, print_error, print, exit. unfold stopped.
  cbn [transcript commands].
  split; [|split; [|split; [|split]]].
  - apply Forall_app. split; [exact Hrep|by constructor].
  - rewrite commands_run_snoc, length_app, Hlen. cbn. lia.
  - intros k Hk. apply Hok. lia.
  - discriminate.
  - right. split; [reflexivity|]. eexists. split; [apply last_snoc|].
    by exists cmd.
Qed.

Lemma fails_fast_if {A} (b : bool) (m1 m2 : Sh A) Q :
  fails_fast env m1 Q -> fails_fast env m2 Q ->
  fails_fast env (if b then m1 else m2) Q.
Proof. by destruct b. Qed.

(** The test of [$?] after a command that has succeeded. *)
Lemma fails_fast_status {A} st (m1 m2 : Sh A) Q :
  st = 0%nat -> fails_fast env m1 Q ->
  fails_fast env (if (st =? 0)%nat then m1 else m2) Q.
Proof. by intros ->. Qed.

Ltac fails_fast_auto :=
  first
    [ match goal with
      | H : ?st = 0%nat |- fails_fast _ (if (?st =? 0)%nat then _ else _) _ =>
          apply (fails_fast_status st _ _ _ H); fails_fast_auto
      end
    | apply fails_fast_sh
    | apply fails_fast_capture
    | apply fails_fast_missing; reflexivity
    | apply fails_fast_print; [reflexivity|exact I]
    | apply (fails_fast_ret _ (fun _ => True) I)
    | apply fails_fast_if; fails_fast_auto
    | eapply fails_fast_bind;
      [fails_fast_auto | intros ? ?; cbv beta in *; fails_fast_auto] ].

Lemma main_fails_fast arg : fails_fast env (main env arg) (fun _ => True).
Proof.
  unfold main.
  repeat match goal with
         | |- fails_fast _ (if String.eqb ?a ?b then _ else _) _ =>
             apply fails_fast_if
         end.
  all: unfold check_prerequisites, setup_venv, run_tests, build_sam,
         start_local_api, test_local_api, validate_sam, deploy, clean,
         show_help, print_success, print_error, print_info, echo;
       cbn [require_all].
  all: fails_fast_auto.
Qed.

Lemma initial_shell_running :
  running env {| transcript := []; commands := 0 |}.
Proof.
  split; [constructor|]. split; [reflexivity|]. intros k Hk. cbn in Hk. lia.
Qed.

End DevScriptFacts.

(** X10. The script never goes on after a failure.  Every command it ran,
    except possibly the last, ended with status 0.  When the script ends
    with status 0, the last one did too.  When it ends with another status,
    the last thing in the transcript is the command with that status, or,
    with status 1, the report of a missing tool. *)
Theorem script_stops_at_first_failure env arg :
  let lines := fst (DevScript.script env arg) in
  let code := snd (DevScript.script env arg) in
  let n := length (DevScript.commands_run lines) in
  (forall k, (S k < n)%nat -> DevScript.status env k = 0%nat) /\
  (code = 0%nat -> forall k, (k < n)%nat -> DevScript.status env k = 0%nat) /\
  (code <> 0%nat ->
   (exists cmd, last lines = Some (DevScript.Run cmd) /\ (0 < n)%nat /\
                code = DevScript.status env (n - 1)) \/
   (code = 1%nat /\
    exists tool,
      last lines = Some (DevScript.Failure (tool +:+ " is not installed")))).
Proof.
  intros lines code n. subst lines code n. unfold DevScript.script.
  pose proof (main_fails_fast env arg _ (initial_shell_running env)) as Hmain.
  destruct (DevScript.main env arg _) as [s [[]|code]]; cbn [fst snd].
  - destruct Hmain as [(_ & -> & Hok) _].
    split; [intros k Hk; apply Hok; lia|]. split; [auto|]. congruence.
  - destruct Hmain as (_ & -> & Hok & Hcode & Hlast).
    split; [exact Hok|]. split; [congruence|]. intros _.
    destruct Hlast as [(cmd & Hl & Hn & Hc)|(-> & l & Hl & tool & ->)].
    + left. by exists cmd.
    + right. split; [reflexivity|]. by exists tool.
Qed.

(** X11. The reports 'Tests failed!', 'SAM build failed!', 'SAM template
    validation failed!' and 'Deployment failed!' are never written, whatever
    the command and the machine: under [set -e] a failing tool ends the
    script before the test of [$?] that would write them.  When pytest
    fails, for instance, the script ends with the status of pytest and
    pytest is the last line of the transcript. *)
Theorem failure_reports_are_never_written env arg :
  Forall (fun msg => DevScript.Failure msg ∉ fst (DevScript.script env arg))
    DevScript.failure_reports /\
  (DevScript.status env 0 = 0%nat -> DevScript.status env 1 = 0%nat ->
   DevScript.script env "test" =
     ([DevScript.Info "Running backend tests...";
       DevScript.Run "cd backend";
       DevScript.Run "source venv/bin/activate";
       DevScript.Run "pytest test_lambda_function.py -v --cov=lambda_function --cov-report=term-missing"]
      ++ (if (DevScript.status env 2 =? 0)%nat
          then [DevScript.Success "All tests passed!"; DevScript.Run "cd .."]
          else []),
      if (DevScript.status env 2 =? 0)%nat then DevScript.status env 3
      else DevScript.status env 2)).
Proof.
  split.
  - assert (Hrep : Forall (fun l => DevScript.is_report l = false)
                     (fst (DevScript.script env arg))).
    { unfold DevScript.script.
      pose proof (main_fails_fast env arg _ (initial_shell_running env)) as Hmain.
      destruct (DevScript.main env arg _) as [s [[]|code]]; cbn [fst];
        [destruct Hmain as [Hmain _]|]; apply Hmain. }
    apply Forall_forall. intros msg Hmsg Hin.
    pose proof (proj1 (Forall_forall _ _) Hrep _ Hin) as Hl.
    cbn in Hl. apply bool_decide_eq_false in Hl. contradiction.
  - intros H0 H1. unfold DevScript.script, DevScript.main.
    cbn [String.eqb Ascii.eqb Bool.eqb andb].
    unfold DevScript.run_tests, DevScript.print_info, DevScript.print_success,
      DevScript.print_error.
    unfold mbind, mret, DevScript.Sh_bind, DevScript.Sh_ret, DevScript.sh,
      DevScript.print, DevScript.exit.
    cbn [DevScript.transcript DevScript.commands app].
    rewrite H0. cbn [Nat.eqb DevScript.transcript DevScript.commands app].
    rewrite H1. cbn [Nat.eqb DevScript.transcript DevScript.commands app].
    destruct (DevScript.status env 2 =? 0)%nat eqn:H2;
      cbn [Nat.eqb DevScript.transcript DevScript.commands app]; [|reflexivity].
    apply Nat.eqb_eq in H2. rewrite H2.
    cbn [Nat.eqb DevScript.transcript DevScript.commands app].
    destruct (DevScript.status env 3 =? 0)%nat eqn:H3; [|reflexivity].
    apply Nat.eqb_eq in H3. by rewrite H3.
Qed.

Lemma failure_reports_are_never_written_witness :
  let env := DevScript.failing_at 2 3 "" in
  Forall (fun msg => DevScript.Failure msg ∉ fst (DevScript.script env "test"))
    DevScript.failure_reports /\
  DevScript.script env "test" =
    ([DevScript.Info "Running backend tests...";
      DevScript.Run "cd backend";
      DevScript.Run "source venv/bin/activate";
      DevScript.Run "pytest test_lambda_function.py -v --cov=lambda_function --cov-report=term-missing"],
     3%nat).
Proof.
  destruct (failure_reports_are_never_written (DevScript.failing_at 2 3 "") "test")
    as [Hnever Htest].
  split; [exact Hnever|].
  exact (Htest eq_refl eq_refl).
Defined.

Ltac script_unfold :=
  unfold DevScript.script, DevScript.main;
  cbn [String.eqb Ascii.eqb Bool.eqb andb];
  unfold DevScript.check_prerequisites, DevScript.setup_venv,
    DevScript.run_tests, DevScript.build_sam, DevScript.start_local_api,
    DevScript.test_local_api, DevScript.validate_sam, DevScript.deploy,
    DevScript.clean, DevScript.show_help;
  cbn [DevScript.require_all];
  unfold DevScript.print_success, DevScript.print_error, DevScript.print_info,
    DevScript.echo;
  unfold mbind, mret, DevScript.Sh_bind, DevScript.Sh_ret, DevScript.sh,
    DevScript.capture, DevScript.print, DevScript.exit;
  cbn [DevScript.transcript DevScript.commands app fst snd negb].

Ltac script_branch env :=
  match goal with
  | |- context [Nat.eqb (DevScript.status env ?k) 0] =>
      let E := fresh "Hstatus" in
      destruct (Nat.eqb (DevScript.status env k) 0) eqn:E
  | |- context [DevScript.installed env ?c] =>
      let E := fresh "Hinstalled" in
      destruct (DevScript.installed env c) eqn:E
  | |- context [DevScript.venv_exists env] =>
      let E := fresh "Hvenv" in
      destruct (DevScript.venv_exists env) eqn:E
  end;
  cbn [DevScript.transcript DevScript.commands app fst snd negb].

(** X12. [check] runs no command.  It ends with status 0 exactly when
    python3, pip and aws are all found, and with status 1 otherwise, the
    last line naming the first of them that is missing; whether sam is
    found changes the last line only. *)
Theorem check_needs_python_pip_aws env :
  let lines := fst (DevScript.script env "check") in
  let code := snd (DevScript.script env "check") in
  DevScript.commands_run lines = [] /\
  (code = 0%nat <->
   DevScript.installed env "python3" = true /\
   DevScript.installed env "pip" = true /\
   DevScript.installed env "aws" = true) /\
  (code = 0%nat \/ code = 1%nat) /\
  last lines = Some (
    if negb (DevScript.installed env "python3")
    then DevScript.Failure "python3 is not installed"
    else if negb (DevScript.installed env "pip")
    then DevScript.Failure "pip is not installed"
    else if negb (DevScript.installed env "aws")
    then DevScript.Failure "aws is not installed"
    else if DevScript.installed env "sam"
    then DevScript.Success "SAM CLI is installed"
    else DevScript.Info "SAM is not installed (use CloudShell for SAM operations)").
Proof.
  script_unfold. repeat script_branch env.
  all: cbn; repeat split; try (intros; discriminate); try tauto; try lia;
       intuition discriminate.
Qed.

Lemma prefix_app (s t : string) : String.prefix s (s +:+ t) = true.
Proof.
  induction s as [|c s IH]; [by destruct t|].
  change (String.prefix (String c s) (String c (s +:+ t)) = true).
  cbn [String.prefix]. destruct (Ascii.ascii_dec c c); [exact IH|contradiction].
Qed.

Lemma contains_unfold needle text :
  DevScript.contains needle text =
  String.prefix needle text ||
  match text with
  | EmptyString => false
  | String _ rest => DevScript.contains needle rest
  end.
Proof. by destruct text. Qed.

Lemma contains_app needle pre post :
  DevScript.contains needle (pre +:+ needle +:+ post) = true.
Proof.
  induction pre as [|c pre IH].
  - change (DevScript.contains needle (needle +:+ post) = true).
    rewrite contains_unfold, prefix_app. reflexivity.
  - change (DevScript.contains needle (String c (pre +:+ needle +:+ post)) = true).
    rewrite contains_unfold, IH. apply orb_true_r.
Qed.

(** X13. [test-api] ends with the status of curl when curl fails, without
    any verdict.  When curl succeeds it ends with status 0 whatever the
    answer was, and it reports that the API is working exactly when the
    answer mentions count anywhere: also for an answer that carries the
    error 'Failed to update visitor count'. *)
Theorem test_api_accepts_any_mention_of_count env :
  let st := DevScript.status env 0 in
  let response := DevScript.output env 0 in
  DevScript.script env "test-api" =
    ([DevScript.Info "Testing local API...";
      DevScript.Run "curl -s -X POST http://localhost:3000/visitor-count"]
     ++ (if (st =? 0)%nat then
           [if DevScript.contains "count" response
            then DevScript.Success "Local API is working!"
            else DevScript.Failure "Local API test failed!";
            DevScript.Echo ("Response: " +:+ response)]
         else []),
     st) /\
  forall pre post,
    DevScript.contains "count"
      (pre +:+ "Failed to update visitor count" +:+ post) = true.
Proof.
  split.
  - script_unfold. script_branch env; [|reflexivity].
    apply Nat.eqb_eq in Hstatus. rewrite Hstatus.
    destruct (DevScript.contains "count" (DevScript.output env 0)); reflexivity.
  - intros pre post.
    change (pre +:+ "Failed to update visitor count" +:+ post)
      with (pre +:+ "Failed to update visitor " +:+ "count" +:+ post).
    rewrite <- append_assoc. apply contains_app.
Qed.

(** The error answer of the API documentation passes the test. *)
Example test_api_passes_on_the_error_answer :
  DevScript.script
    (DevScript.all_good "{error: Failed to update visitor count, message: Error details}")
    "test-api" =
  ([DevScript.Info "Testing local API...";
    DevScript.Run "curl -s -X POST http://localhost:3000/visitor-count";
    DevScript.Success "Local API is working!";
    DevScript.Echo
      "Response: {error: Failed to update visitor count, message: Error details}"],
   0%nat).
Proof. vm_compute. reflexivity. Qed.

(** X14. An argument that is none of the ten commands, and in particular
    no argument at all, makes the script write the help text, run nothing
    and end with status 0. *)
Theorem unknown_command_shows_help env arg :
  arg ∉ DevScript.known_commands ->
  DevScript.script env arg = ([DevScript.Help], 0%nat).
Proof.
  intros Hnot. unfold DevScript.script, DevScript.main.
  repeat match goal with
         | |- context [String.eqb arg ?c] =>
             destruct (String.eqb_spec arg c) as [->|_];
               [exfalso; apply Hnot; unfold DevScript.known_commands;
                rewrite !elem_of_cons; tauto|]
         end.
  reflexivity.
Qed.

Lemma unknown_command_shows_help_witness :
  DevScript.script DevScript.no_aws "" = ([DevScript.Help], 0%nat) /\
  DevScript.script DevScript.no_aws "status" = ([DevScript.Help], 0%nat).
Proof.
  split.
  - apply (unknown_command_shows_help DevScript.no_aws "").
    unfold DevScript.known_commands. intros H.
    repeat (apply elem_of_cons in H as [H|H]; [discriminate H|]).
    by apply elem_of_nil in H.
  - apply (unknown_command_shows_help DevScript.no_aws "status").
    unfold DevScript.known_commands. intros H.
    repeat (apply elem_of_cons in H as [H|H]; [discriminate H|]).
    by apply elem_of_nil in H.
Defined.

(** X15. [all] ends with status 0 exactly when python3, pip and aws are
    found and every command it runs succeeds; exactly then its last line
    is the final success message, and the commands it has run are, in
    order: the creation of the virtual environment when there is none, its
    activation, the installation of the requirements, the validation of
    the template, the tests and the build. *)
Theorem all_succeeds_only_when_every_step_does env :
  let lines := fst (DevScript.script env "all") in
  let code := snd (DevScript.script env "all") in
  let steps :=
    (if DevScript.venv_exists env then []
     else ["python3 -m venv backend/venv"]) ++
    ["source backend/venv/bin/activate";
     "pip install -r backend/requirements.txt";
     "cd backend"; "sam validate --lint"; "cd ..";
     "cd backend"; "source venv/bin/activate";
     "pytest test_lambda_function.py -v --cov=lambda_function --cov-report=term-missing";
     "cd ..";
     "cd backend"; "sam build"; "cd .."] in
  (code = 0%nat <->
   (DevScript.installed env "python3" = true /\
    DevScript.installed env "pip" = true /\
    DevScript.installed env "aws" = true) /\
   forall k, (k < length steps)%nat -> DevScript.status env k = 0%nat) /\
  (code = 0%nat <->
   last lines =
     Some (DevScript.Success "All validations and tests completed successfully!")) /\
  (code = 0%nat -> DevScript.commands_run lines = steps).
Proof.
  script_unfold. repeat script_branch env.
  all: repeat match goal with
         | H : (_ =? 0)%nat = true |- _ => apply Nat.eqb_eq in H
         | H : (_ =? 0)%nat = false |- _ => apply Nat.eqb_neq in H
         end.
  all: cbn [length app fst snd]; split; [|split].
  all: try (split; [intros Hcode; exfalso; congruence|]).
  all: try (intros Hcode; exfalso; congruence).
  all: try (intros [(Hpython & Hpip & Haws) Hall]; exfalso;
            first [congruence
                  | match goal with
                    | H : DevScript.status _ ?j <> 0%nat |- _ =>
                        apply H, Hall; lia
                    end]).
  all: try (intros Hlast; vm_compute in Hlast; discriminate Hlast).
  all: try (intros _; reflexivity).
  all: try (split; intros _; reflexivity).
  all: split; [intros _|intros _; reflexivity].
  all: split; [tauto|]; intros k Hk.
  all: do 13 (destruct k as [|k]; [assumption || lia|]); lia.
Qed.
